(** * aliyun-captcha: the request signer and invoker of [src/index.js]

    A shallow embedding of the module and of the host functions it calls
    (ECMAScript strings, [encodeURIComponent], [Array.prototype.sort],
    [Object.assign], Node's [crypto.createHmac]), followed by the properties
    of the signer, the escaper and the request assembler. *)

From Stdlib Require Import String Ascii.
From Stdlib Require Import ZArith List Bool Lia Permutation Sorted.
Import ListNotations.
Local Open Scope Z_scope.

(** ** ECMAScript strings

    A string value is a finite sequence of 16-bit code units.  Code units are
    carried as [Z]; [code_unit] is the range they live in. *)

Definition js_string := list Z.

Definition code_unit (c : Z) : Prop := 0 <= c < 65536.

(** A source literal made of ASCII characters. *)
Definition lit (s : string) : js_string :=
  map (fun a => Z.of_N (N_of_ascii a)) (list_ascii_of_string s).

Fixpoint str_eqb (a b : js_string) : bool :=
  match a, b with
  | [], [] => true
  | x :: a', y :: b' => Z.eqb x y && str_eqb a' b'
  | _, _ => false
  end.

(** Surrogate halves (ECMA-262, 6.1.4). *)
Definition is_leading_surrogate (c : Z) : bool := (0xD800 <=? c) && (c <=? 0xDBFF).
Definition is_trailing_surrogate (c : Z) : bool := (0xDC00 <=? c) && (c <=? 0xDFFF).

Definition UTF16SurrogatePairToCodePoint (lead trail : Z) : Z :=
  (lead - 0xD800) * 0x400 + (trail - 0xDC00) + 0x10000.

(** The code points of a string, an unpaired surrogate standing for itself
    (ECMA-262, StringToCodePoints). *)
Fixpoint StringToCodePoints (s : js_string) : list Z :=
  match s with
  | [] => []
  | c :: rest =>
      if is_leading_surrogate c then
        match rest with
        | d :: rest' =>
            if is_trailing_surrogate d
            then UTF16SurrogatePairToCodePoint c d :: StringToCodePoints rest'
            else c :: StringToCodePoints rest
        | [] => [c]
        end
      else c :: StringToCodePoints rest
  end.

(** No surrogate half without its partner. *)
Fixpoint is_well_formed (s : js_string) : bool :=
  match s with
  | [] => true
  | c :: rest =>
      if is_leading_surrogate c then
        match rest with
        | d :: rest' => is_trailing_surrogate d && is_well_formed rest'
        | [] => false
        end
      else negb (is_trailing_surrogate c) && is_well_formed rest
  end.

(** ** Octets, UTF-8 *)

Definition octets := list Z.

Definition utf8_of_code_point (cp : Z) : octets :=
  if cp <? 0x80 then [cp]
  else if cp <? 0x800 then
    [Z.lor 0xC0 (Z.shiftr cp 6); Z.lor 0x80 (Z.land cp 0x3F)]
  else if cp <? 0x10000 then
    [Z.lor 0xE0 (Z.shiftr cp 12);
     Z.lor 0x80 (Z.land (Z.shiftr cp 6) 0x3F);
     Z.lor 0x80 (Z.land cp 0x3F)]
  else
    [Z.lor 0xF0 (Z.shiftr cp 18);
     Z.lor 0x80 (Z.land (Z.shiftr cp 12) 0x3F);
     Z.lor 0x80 (Z.land (Z.shiftr cp 6) 0x3F);
     Z.lor 0x80 (Z.land cp 0x3F)].

(** Node's conversion of a string to a UTF-8 buffer: an unpaired surrogate is
    written as U+FFFD. *)
Definition replace_unpaired (cp : Z) : Z :=
  if is_leading_surrogate cp || is_trailing_surrogate cp then 0xFFFD else cp.

Definition utf8_buffer (s : js_string) : octets :=
  flat_map (fun cp => utf8_of_code_point (replace_unpaired cp)) (StringToCodePoints s).

(** ** SHA-1 (FIPS 180-4) on 32-bit words carried as [Z] *)

Module SHA1.

Definition w32 (x : Z) : Z := x mod 2 ^ 32.

Definition add32 (a b : Z) : Z := w32 (a + b).

Definition rotl (n x : Z) : Z :=
  w32 (Z.lor (Z.shiftl x n) (Z.shiftr x (32 - n))).

Definition not32 (x : Z) : Z := Z.lxor x 0xFFFFFFFF.

Definition f (t : nat) (b c d : Z) : Z :=
  if (t <? 20)%nat then Z.lor (Z.land b c) (Z.land (not32 b) d)
  else if (t <? 40)%nat then Z.lxor (Z.lxor b c) d
  else if (t <? 60)%nat then
    Z.lor (Z.lor (Z.land b c) (Z.land b d)) (Z.land c d)
  else Z.lxor (Z.lxor b c) d.

Definition K (t : nat) : Z :=
  if (t <? 20)%nat then 0x5A827999
  else if (t <? 40)%nat then 0x6ED9EBA1
  else if (t <? 60)%nat then 0x8F1BBCDC
  else 0xCA62C1D6.

(** Big-endian words of a block of octets. *)
Fixpoint words (bs : octets) : list Z :=
  match bs with
  | a :: b :: c :: d :: rest =>
      (((a * 256 + b) * 256 + c) * 256 + d) :: words rest
  | _ => []
  end.

Definition be_octets (n : nat) (x : Z) : octets :=
  map (fun i => Z.shiftr x (8 * Z.of_nat i) mod 256) (rev (seq 0 n)).

(** Padding: a one bit, zeros up to 56 modulo 64, the bit length on 64 bits. *)
Definition pad (msg : octets) : octets :=
  let len := Z.of_nat (length msg) in
  let zeros := Z.to_nat ((55 - len) mod 64) in
  msg ++ [0x80] ++ repeat 0 zeros ++ be_octets 8 (8 * len).

(** The message schedule, most recent word first. *)
Fixpoint schedule (n : nat) (w : list Z) : list Z :=
  match n with
  | O => w
  | S n' =>
      let x := Z.lxor (Z.lxor (Z.lxor (nth 2 w 0) (nth 7 w 0)) (nth 13 w 0)) (nth 15 w 0) in
      schedule n' (rotl 1 x :: w)
  end.

Definition state := (Z * Z * Z * Z * Z)%type.

Definition round (st : state) (tw : nat * Z) : state :=
  let '(a, b, c, d, e) := st in
  let '(t, w) := tw in
  let temp := add32 (add32 (add32 (add32 (rotl 5 a) (f t b c d)) e) (K t)) w in
  (temp, a, rotl 30 b, c, d).

Definition compress (h : state) (block : octets) : state :=
  let w := rev (schedule 64 (rev (words block))) in
  let '(a, b, c, d, e) := fold_left round (combine (seq 0 80) w) h in
  let '(h0, h1, h2, h3, h4) := h in
  (add32 h0 a, add32 h1 b, add32 h2 c, add32 h3 d, add32 h4 e).

Fixpoint blocks (n : nat) (bs : octets) : list octets :=
  match n with
  | O => []
  | S n' => firstn 64 bs :: blocks n' (skipn 64 bs)
  end.

Definition initial : state :=
  (0x67452301, 0xEFCDAB89, 0x98BADCFE, 0x10325476, 0xC3D2E1F0).

Definition digest (msg : octets) : octets :=
  let p := pad msg in
  let '(h0, h1, h2, h3, h4) :=
    fold_left compress (blocks (length p / 64) p) initial in
  flat_map (be_octets 4) [h0; h1; h2; h3; h4].

End SHA1.

(** ** HMAC (RFC 2104) with SHA-1, block size 64 *)

Module HMAC.

Definition block_key (key : octets) : octets :=
  let k := if (64 <? length key)%nat then SHA1.digest key else key in
  k ++ repeat 0 (64 - length k).

Definition sha1 (key msg : octets) : octets :=
  let k := block_key key in
  let ipad := map (Z.lxor 0x36) k in
  let opad := map (Z.lxor 0x5C) k in
  SHA1.digest (opad ++ SHA1.digest (ipad ++ msg)).

End HMAC.

(** ** Base64 (RFC 4648, standard alphabet, padded) *)

Module Base64.

Definition alphabet : js_string :=
  lit "ABCDEFGHIJKLMNOPQRSTUVWXYZabcdefghijklmnopqrstuvwxyz0123456789+/".

Definition digit (n : Z) : Z := nth (Z.to_nat n) alphabet 0.

Definition pad_char : Z := 61.

Fixpoint encode (bs : octets) : js_string :=
  match bs with
  | [] => []
  | [a] =>
      [digit (Z.shiftr a 2); digit (Z.shiftl (Z.land a 3) 4); pad_char; pad_char]
  | [a; b] =>
      [digit (Z.shiftr a 2);
       digit (Z.lor (Z.shiftl (Z.land a 3) 4) (Z.shiftr b 4));
       digit (Z.shiftl (Z.land b 15) 2);
       pad_char]
  | a :: b :: c :: rest =>
      digit (Z.shiftr a 2)
      :: digit (Z.lor (Z.shiftl (Z.land a 3) 4) (Z.shiftr b 4))
      :: digit (Z.lor (Z.shiftl (Z.land b 15) 2) (Z.shiftr c 6))
      :: digit (Z.land c 63)
      :: encode rest
  end.

End Base64.

Definition hex_digit (n : Z) : Z := nth (Z.to_nat n) (lit "0123456789ABCDEF") 0.

(** Lower-case hexadecimal, for comparing digests with published vectors. *)
Definition hex_lower (bs : octets) : js_string :=
  flat_map (fun b => [nth (Z.to_nat (Z.shiftr b 4)) (lit "0123456789abcdef") 0;
                      nth (Z.to_nat (Z.land b 15)) (lit "0123456789abcdef") 0]) bs.

(** ** Sorting

    [Array.prototype.sort] leaves the algorithm to the engine; with a
    comparison that is a total order its result is the one sorted permutation
    ([isort_unique] below), here computed by insertion. *)

Section Sorting.

Context {A : Type}.
Variable leb : A -> A -> bool.

Fixpoint insert (x : A) (l : list A) : list A :=
  match l with
  | [] => [x]
  | y :: l' => if leb x y then x :: l else y :: insert x l'
  end.

Fixpoint isort (l : list A) : list A :=
  match l with
  | [] => []
  | x :: l' => insert x (isort l')
  end.

End Sorting.

(** The comparison of two strings by [<] (ECMA-262, IsLessThan): the first
    differing code unit decides, a proper prefix is smaller. *)
Fixpoint str_ltb (a b : list Z) : bool :=
  match a, b with
  | _, [] => false
  | [], _ :: _ => true
  | x :: a', y :: b' =>
      if x <? y then true else if y <? x then false else str_ltb a' b'
  end.

Definition str_leb (a b : list Z) : bool := negb (str_ltb b a).

(** [Array.prototype.sort()] without a comparison function, on strings. *)
Definition Array_sort (l : list js_string) : list js_string := isort str_leb l.

Definition join (sep : js_string) (l : list js_string) : js_string :=
  match l with
  | [] => []
  | x :: l' => x ++ flat_map (fun y => sep ++ y) l'
  end.

(** ** Values and objects *)

Inductive value : Type :=
  | Undefined
  | Str (s : js_string).

Definition ToString (v : value) : js_string :=
  match v with
  | Undefined => lit "undefined"
  | Str s => s
  end.

Definition ToBoolean (v : value) : bool :=
  match v with
  | Undefined => false
  | Str [] => false
  | Str (_ :: _) => true
  end.

(** [a && b] and [a, b] on values. *)
Definition js_and (a b : value) : value := if ToBoolean a then b else a.
Definition comma (a b : value) : value := b.

(** An ordinary object with string keys: its own properties in creation
    order. *)
Definition object := list (js_string * value).

Definition own_keys_unique (o : object) : Prop := NoDup (map fst o).

Fixpoint lookup (o : object) (k : js_string) : option value :=
  match o with
  | [] => None
  | (k', v) :: o' => if str_eqb k' k then Some v else lookup o' k
  end.

Definition has_own (o : object) (k : js_string) : bool :=
  match lookup o k with Some _ => true | None => false end.

(** [o[k]] *)
Definition get (o : object) (k : js_string) : value :=
  match lookup o k with Some v => v | None => Undefined end.

(** CreateDataProperty, what an object literal does for each property it
    lists: an existing own property keeps its place, a new one goes last. *)
Fixpoint define (o : object) (k : js_string) (v : value) : object :=
  match o with
  | [] => [(k, v)]
  | (k', v') :: o' =>
      if str_eqb k' k then (k', v) :: o' else (k', v') :: define o' k v
  end.

(** [o[k] = v] on an ordinary object (ECMA-262, OrdinarySet): an own property
    is overwritten, and a key the object does not have becomes a new own
    property, except "__proto__": without an own property of that name the
    assignment reaches the setter inherited from [Object.prototype], which
    ignores a value that is neither an object nor [null] (every [value]
    here), so nothing is stored. *)
Definition set (o : object) (k : js_string) (v : value) : object :=
  if str_eqb k (lit "__proto__") && negb (has_own o k)
  then o
  else define o k v.

Fixpoint remove (o : object) (k : js_string) : object :=
  match o with
  | [] => []
  | (k', v') :: o' =>
      if str_eqb k' k then remove o' k else (k', v') :: remove o' k
  end.

(** An object literal [{k1: v1, ..., kn: vn}] with shorthand or ordinary
    property names, as the literals of the module are. *)
Definition literal (entries : list (js_string * value)) : object :=
  fold_left (fun o kv => define o (fst kv) (snd kv)) entries [].

(** Array indices: canonical decimal strings below 2^32 - 1. *)
Definition is_digit (c : Z) : bool := (48 <=? c) && (c <=? 57).

Definition decimal_value (s : js_string) : Z :=
  fold_left (fun acc c => 10 * acc + (c - 48)) s 0.

Definition array_index (k : js_string) : option Z :=
  match k with
  | [] => None
  | c :: rest =>
      if forallb is_digit k
         && (negb (c =? 48) || match rest with [] => true | _ => false end)
         && (decimal_value k <? 2 ^ 32 - 1)
      then Some (decimal_value k)
      else None
  end.

Definition is_array_index (k : js_string) : bool :=
  match array_index k with Some _ => true | None => false end.

Definition index_leb (a b : js_string) : bool :=
  match array_index a, array_index b with
  | Some x, Some y => x <=? y
  | _, _ => true
  end.

(** [Object.keys(o)]: array indices in ascending order, then the other keys
    in creation order (ECMA-262, OrdinaryOwnPropertyKeys). *)
Definition Object_keys (o : object) : list js_string :=
  let ks := map fst o in
  isort index_leb (filter is_array_index ks)
  ++ filter (fun k => negb (is_array_index k)) ks.

(** [Object.assign(target, source)]: each own key of the source, in the
    order of [Object.keys], is read from the source and assigned to the
    target with [[Set]]. *)
Definition assign1 (target source : object) : object :=
  fold_left (fun t k => set t k (get source k)) (Object_keys source) target.

(** [Object.assign(target, ...sources)] *)
Definition Object_assign (target : object) (sources : list object) : object :=
  fold_left assign1 sources target.

(** A parameter with a default value: the default stands in for [undefined]. *)
Definition default_param {A : Type} (d : A) (a : option A) : A :=
  match a with Some x => x | None => d end.

(** ** Completions, the world, and the monad of the module's functions *)

Inductive error : Type :=
  | TypeError (message : js_string)
  | URIError.

Inductive completion (A : Type) : Type :=
  | Returned (a : A)
  | Threw (e : error).
Arguments Returned {A} a.
Arguments Threw {A} e.

Definition is_returned {A : Type} (c : completion A) : bool :=
  match c with Returned _ => true | Threw _ => false end.

(** What [request.get(url, options)] was called with. *)
Record http_get : Type := {
  url : js_string;
  qs : object;
  timeout : Z;
  json : bool
}.

(** The promise of the response to the [n]-th request on the wire. *)
Inductive promise : Type := ResponseOf (n : nat).

(** What the module can observe or change outside its arguments: the random
    source behind [uuid.v4()], the clock behind [new Date()], and the requests
    handed to the transport. *)
Record world : Type := {
  uuid_source : nat -> js_string;
  uuid_drawn : nat;
  clock : js_string;
  wire : list http_get
}.

Definition M (A : Type) : Type := world -> completion A * world.

Definition ret {A : Type} (a : A) : M A := fun w => (Returned a, w).

Definition throw {A : Type} (e : error) : M A := fun w => (Threw e, w).

Definition bind {A B : Type} (m : M A) (k : A -> M B) : M B :=
  fun w =>
    match m w with
    | (Returned a, w') => k a w'
    | (Threw e, w') => (Threw e, w')
    end.

Notation "x <- m ;; k" := (bind m (fun x => k))
  (at level 61, m at next level, right associativity).

Fixpoint mapM {A B : Type} (f : A -> M B) (l : list A) : M (list B) :=
  match l with
  | [] => ret []
  | x :: l' =>
      y <- f x ;;
      ys <- mapM f l' ;;
      ret (y :: ys)
  end.

(** A host function that touches nothing and may throw. *)
Definition host {A : Type} (c : completion A) : M A := fun w => (c, w).

(** [uuid.v4()] *)
Definition uuid_v4 : M js_string :=
  fun w =>
    (Returned (uuid_source w (uuid_drawn w)),
     {| uuid_source := uuid_source w;
        uuid_drawn := S (uuid_drawn w);
        clock := clock w;
        wire := wire w |}).

(** [new Date().toISOString()] *)
Definition Date_toISOString : M js_string :=
  fun w => (Returned (clock w), w).

(** [request.get(url, options)]: the request goes on the wire and a promise of
    its response is returned. *)
Definition request_get (r : http_get) : M promise :=
  fun w =>
    (Returned (ResponseOf (length (wire w))),
     {| uuid_source := uuid_source w;
        uuid_drawn := uuid_drawn w;
        clock := clock w;
        wire := wire w ++ [r] |}).

(** ** [encodeURIComponent] and [String.prototype.replace] *)

Definition unit_of (a : ascii) : Z := Z.of_N (N_of_ascii a).

Definition is_alpha (c : Z) : bool :=
  ((65 <=? c) && (c <=? 90)) || ((97 <=? c) && (c <=? 122)).

(** uriMark: [- _ . ! ~ * ' ( )] *)
Definition is_uri_mark (c : Z) : bool :=
  existsb (Z.eqb c) (lit "-_.!~*'()").

Definition uriUnescaped (c : Z) : bool :=
  is_alpha c || is_digit c || is_uri_mark c.

Definition percent_octet (b : Z) : js_string :=
  [37; hex_digit (Z.shiftr b 4); hex_digit (Z.land b 15)].

Definition percent_encode (cp : Z) : js_string :=
  flat_map percent_octet (utf8_of_code_point cp).

Definition prepend (p : js_string) (c : completion js_string) : completion js_string :=
  match c with
  | Returned s => Returned (p ++ s)
  | Threw e => Threw e
  end.

(** ECMA-262, Encode(string, unescapedSet): a code unit of the set is copied;
    otherwise the code point at that position is written as the percent-escaped
    octets of its UTF-8 form, and an unpaired surrogate is a [URIError]. *)
Fixpoint Encode (unescapedSet : Z -> bool) (s : js_string) : completion js_string :=
  match s with
  | [] => Returned []
  | c :: rest =>
      if unescapedSet c then prepend [c] (Encode unescapedSet rest)
      else if is_trailing_surrogate c then Threw URIError
      else if is_leading_surrogate c then
        match rest with
        | d :: rest' =>
            if is_trailing_surrogate d
            then prepend (percent_encode (UTF16SurrogatePairToCodePoint c d))
                         (Encode unescapedSet rest')
            else Threw URIError
        | [] => Threw URIError
        end
      else prepend (percent_encode c) (Encode unescapedSet rest)
  end.

Definition encodeURIComponent (v : value) : M js_string :=
  host (Encode uriUnescaped (ToString v)).

(** [s.replace(/c/g, by)] for a single literal character [c] and a replacement
    without [$]. *)
Definition replace_all (c : Z) (by_ : js_string) (s : js_string) : js_string :=
  flat_map (fun x => if x =? c then by_ else [x]) s.

(** The engine's [String.prototype.toUpperCase]: its Unicode tables are the
    host's, so the module is read over any such function. *)
Class Engine : Type := {
  toUpperCase : js_string -> js_string
}.

(** The mapping on ASCII letters, where every engine agrees. *)
Definition ascii_upper (s : js_string) : js_string :=
  map (fun c => if (97 <=? c) && (c <=? 122) then c - 32 else c) s.

Definition ascii_engine : Engine := {| toUpperCase := ascii_upper |}.

(** ** The module: [src/index.js] *)

Definition AFS_ENDPOINT : js_string := lit "https://afs.aliyuncs.com".

Definition DEFAULTS : object :=
  literal
    [ (lit "Action", Str (lit "AuthenticateSig"));
      (lit "Format", Str (lit "JSON"));
      (lit "RegionId", Str (lit "cn-hangzhou"));
      (lit "SignatureMethod", Str (lit "HMAC-SHA1"));
      (lit "SignatureVersion", Str (lit "1.0"));
      (lit "Version", Str (lit "2018-01-12")) ].

(** [function escaper(str)] *)
Definition escaper (str : value) : M js_string :=
  s <- encodeURIComponent str ;;
  ret (replace_all (unit_of "*") (lit "%2A")
        (replace_all (unit_of ")") (lit "%29")
          (replace_all (unit_of "(") (lit "%28")
            (replace_all (unit_of "'") (lit "%27")
              (replace_all (unit_of "!") (lit "%21") s))))).

(** [crypto.createHmac('sha1', key).update(data).digest('base64')] *)
Definition createHmac_sha1_base64 (key data : js_string) : js_string :=
  Base64.encode (HMAC.sha1 (utf8_buffer key) (utf8_buffer data)).

Section Module.

Context {engine : Engine}.

(** [function getSignature(params, secret, method = 'GET')] *)
Definition getSignature (params : object) (secret : value)
    (method : option js_string) : M js_string :=
  let method := default_param (lit "GET") method in
  pairs <- mapM (fun key =>
                   k <- escaper (Str key) ;;
                   v <- escaper (get params key) ;;
                   ret (k ++ lit "=" ++ v))
                (Array_sort (Object_keys params)) ;;
  let canonicalizedQS := join (lit "&") pairs in
  let upper := toUpperCase method in
  slash <- escaper (Str (lit "/")) ;;
  query <- escaper (Str canonicalizedQS) ;;
  let signStr := upper ++ lit "&" ++ slash ++ lit "&" ++ query in
  ret (createHmac_sha1_base64 (ToString secret ++ lit "&") signStr).

(** The function returned by the export, applied to [opts]. *)
Definition verify (config : object) (opts : option object) : M promise :=
  let opts := default_param [] opts in
  let Token := get opts (lit "Token") in
  let SessionId := get opts (lit "SessionId") in
  let Sig := get opts (lit "Sig") in
  let RemoteIp := get opts (lit "RemoteIp") in
  let AccessKeyId := get config (lit "AccessKeyId") in
  let AppKey := get config (lit "AppKey") in
  let AccessKeySecret := get config (lit "AccessKeySecret") in
  if negb (ToBoolean (comma (comma AccessKeyId AppKey) AccessKeySecret))
  then throw (TypeError (lit "missing config"))
  else if negb (ToBoolean (js_and (js_and (js_and Token SessionId) Sig) RemoteIp))
  then throw (TypeError (lit "missing param"))
  else
    id <- uuid_v4 ;;
    now <- Date_toISOString ;;
    let params :=
      Object_assign
        (literal
           [ (lit "AccessKeyId", AccessKeyId);
             (lit "AppKey", AppKey);
             (lit "SignatureNonce", Str (replace_all (unit_of "-") [] id));
             (lit "Timestamp", Str now) ])
        [DEFAULTS; opts] in
    signature <- getSignature params AccessKeySecret (Some (lit "GET")) ;;
    let params := set params (lit "Signature") (Str signature) in
    request_get {| url := AFS_ENDPOINT; qs := params; timeout := 5000; json := true |}.

(** [module.exports = (config = {}) => (opts = {}) => { ... }] *)
Definition module_exports (config : option object) : M (option object -> M promise) :=
  let config := default_param [] config in
  ret (verify config).

End Module.

(** ** Computations that neither read nor change the world *)

Definition silent {A : Type} (m : M A) : Prop :=
  forall w w', fst (m w) = fst (m w') /\ snd (m w) = w.


(** ** The specification's reading of the escaper and of the signer *)

(** RFC 3986, 2.3: ALPHA / DIGIT / "-" / "." / "_" / "~" *)
Definition rfc3986_unreserved (c : Z) : bool :=
  is_alpha c || is_digit c || existsb (Z.eqb c) (lit "-_.~").

(** Every character but the unreserved ones as the percent-escaped octets of
    its UTF-8 form. *)
Definition escape_rfc3986 (s : js_string) : js_string :=
  flat_map (fun cp => if rfc3986_unreserved cp then [cp] else percent_encode cp)
           (StringToCodePoints s).

(** The five characters the escaper rewrites after [encodeURIComponent]. *)
Definition rewritten : list Z := lit "!'()*".

(** The chain of [replace] calls of [escaper]. *)
Definition replace_chain (s : js_string) : js_string :=
  replace_all (unit_of "*") (lit "%2A")
    (replace_all (unit_of ")") (lit "%29")
      (replace_all (unit_of "(") (lit "%28")
        (replace_all (unit_of "'") (lit "%27")
          (replace_all (unit_of "!") (lit "%21") s)))).

(** The string [encodeURIComponent] returns, when it returns. *)
Definition encoded (s : js_string) : js_string :=
  flat_map (fun cp => if uriUnescaped cp then [cp] else percent_encode cp)
           (StringToCodePoints s).

(** The characters a percent-escape is written with ([0] stands for a digit
    out of range, which no octet has). *)
Definition escape_alphabet : list Z := 0 :: lit "%0123456789ABCDEF".

(** Strings of characters below the surrogates. *)
Definition plain (s : js_string) : Prop := Forall (fun c => c <= 126) s.

(** One entry of the canonical query string. *)
Definition entry_text (kv : js_string * value) : js_string :=
  escape_rfc3986 (fst kv) ++ lit "=" ++ escape_rfc3986 (ToString (snd kv)).

(** The entries of a map, ascending by key in the order [key_leb]. *)
Definition entries_sorted_by_key (key_leb : js_string -> js_string -> bool)
    (params : object) : list (js_string * value) :=
  isort (fun a b => key_leb (fst a) (fst b)) params.

Definition canonical_query (key_leb : js_string -> js_string -> bool)
    (params : object) : js_string :=
  join (lit "&") (map entry_text (entries_sorted_by_key key_leb params)).

(** Lexicographic order on code points, the order of the UTF-8 octets. *)
Definition code_point_leb (a b : js_string) : bool :=
  str_leb (StringToCodePoints a) (StringToCodePoints b).

(** No key and no value has an unpaired surrogate. *)
Definition params_well_formed (params : object) : bool :=
  forallb (fun kv => is_well_formed (fst kv) && is_well_formed (ToString (snd kv)))
          params.

Section Formula.

Context {engine : Engine}.

Definition signing_string (key_leb : js_string -> js_string -> bool)
    (params : object) (method : js_string) : js_string :=
  toUpperCase method ++ lit "&" ++ escape_rfc3986 (lit "/") ++ lit "&"
  ++ escape_rfc3986 (canonical_query key_leb params).

(** base64(HMAC-SHA1(key = secret + "&", message = signing string)) *)
Definition signature_formula (key_leb : js_string -> js_string -> bool)
    (params : object) (secret : value) (method : js_string) : js_string :=
  Base64.encode
    (HMAC.sha1 (utf8_buffer (ToString secret ++ lit "&"))
               (utf8_buffer (signing_string key_leb params method))).

End Formula.

(** ** Sample inputs *)

Definition sample_world : world :=
  {| uuid_source := fun _ => lit "110ec58a-a0f2-4ac4-8393-c866d813b8d1";
     uuid_drawn := 0;
     clock := lit "2018-01-12T08:00:00.000Z";
     wire := [] |}.

(** The worked example of the provider's signature documentation. *)
Definition documented_params : object :=
  literal
    [ (lit "TimeStamp", Str (lit "2016-02-23T12:46:24Z"));
      (lit "Format", Str (lit "XML"));
      (lit "AccessKeyId", Str (lit "testid"));
      (lit "Action", Str (lit "DescribeRegions"));
      (lit "SignatureMethod", Str (lit "HMAC-SHA1"));
      (lit "SignatureNonce", Str (lit "3ee8c1b8-83d3-44af-a94f-4e0ad82fd6cf"));
      (lit "Version", Str (lit "2014-05-26"));
      (lit "SignatureVersion", Str (lit "1.0")) ].

(** Two keys that UTF-16 code units and code points order differently:
    U+FF61 and U+10000 (the surrogate pair D800 DC00). *)
Definition astral_params : object :=
  [ ([0xFF61], Str (lit "1")); ([0xD800; 0xDC00], Str (lit "2")) ].

(** [{b: '1', a: '2'}] and [{a: '2', b: '1'}] *)
Definition params_b_a : object :=
  literal [ (lit "b", Str (lit "1")); (lit "a", Str (lit "2")) ].

Definition params_a_b : object :=
  literal [ (lit "a", Str (lit "2")); (lit "b", Str (lit "1")) ].

(** ** The request assembler, in the specification's words *)

(** The nonce of a call made in [w]: the next identifier without its dashes. *)
Definition nonce (w : world) : js_string :=
  replace_all (unit_of "-") [] (uuid_source w (uuid_drawn w)).

Definition generated_layer (w : world) : object :=
  [ (lit "SignatureNonce", Str (nonce w)); (lit "Timestamp", Str (clock w)) ].

Definition credential_layer (config : object) : object :=
  [ (lit "AccessKeyId", get config (lit "AccessKeyId"));
    (lit "AppKey", get config (lit "AppKey")) ].

(** Layers merged in the order of the list: on a key collision the value of
    the later layer stands. *)
Fixpoint merged (layers : list object) (k : js_string) : option value :=
  match layers with
  | [] => None
  | layer :: later =>
      match merged later k with
      | Some v => Some v
      | None => lookup layer k
      end
  end.

(** The object [params] holds when [getSignature] is called. *)
Definition assembled_params (config opts : object) (w : world) : object :=
  Object_assign
    (literal
       [ (lit "AccessKeyId", get config (lit "AccessKeyId"));
         (lit "AppKey", get config (lit "AppKey"));
         (lit "SignatureNonce", Str (nonce w));
         (lit "Timestamp", Str (clock w)) ])
    [DEFAULTS; opts].

Definition required_present (opts : object) : bool :=
  ToBoolean (get opts (lit "Token")) && ToBoolean (get opts (lit "SessionId"))
  && ToBoolean (get opts (lit "Sig")) && ToBoolean (get opts (lit "RemoteIp")).

(** The world after [uuid.v4()], and after a request went out. *)
Definition drawn (w : world) : world :=
  {| uuid_source := uuid_source w;
     uuid_drawn := S (uuid_drawn w);
     clock := clock w;
     wire := wire w |}.

Definition sent (w : world) (r : http_get) : world :=
  {| uuid_source := uuid_source w;
     uuid_drawn := uuid_drawn w;
     clock := clock w;
     wire := wire w ++ [r] |}.

Definition request_for (params : object) : http_get :=
  {| url := AFS_ENDPOINT; qs := params; timeout := 5000; json := true |}.

Definition sample_config : object :=
  literal
    [ (lit "AccessKeyId", Str (lit "testid"));
      (lit "AppKey", Str (lit "FFFF0000000001780E2D"));
      (lit "AccessKeySecret", Str (lit "testsecret")) ].

Definition sample_opts : object :=
  literal
    [ (lit "Token", Str (lit "token-1"));
      (lit "SessionId", Str (lit "session-1"));
      (lit "Sig", Str (lit "sig-1"));
      (lit "RemoteIp", Str (lit "192.0.2.1"));
      (lit "Scene", Str (lit "login")) ].

(** Options that also name a default and the generated nonce. *)
Definition overriding_opts : object :=
  set (set sample_opts (lit "Format") (Str (lit "XML")))
      (lit "SignatureNonce") (Str (lit "fixed")).

(** Options that carry a [Signature] of their own. *)
Definition opts_with_Signature : object :=
  set sample_opts (lit "Signature") (Str (lit "x")).

(** Options with an own property "__proto__", as [JSON.parse] makes one. *)
Definition opts_with_proto : object :=
  sample_opts ++ [ (lit "__proto__", Str (lit "x")) ].

(** A configuration with the secret only. *)
Definition secret_only_config : object :=
  literal [ (lit "AccessKeySecret", Str (lit "testsecret")) ].

(** ** Names and predicates used by the further properties *)

(** The keys the assembler writes itself: the credentials, the generated
    values, the defaults and the signature. *)
Definition written_names : list js_string :=
  [ lit "AccessKeyId"; lit "AppKey"; lit "SignatureNonce"; lit "Timestamp";
    lit "Action"; lit "Format"; lit "RegionId"; lit "SignatureMethod";
    lit "SignatureVersion"; lit "Version"; lit "Signature" ].

(** An entry whose key and value (as text) have no unpaired surrogate. *)
Definition entry_well_formed (kv : js_string * value) : bool :=
  is_well_formed (fst kv) && is_well_formed (ToString (snd kv)).

(** The value with [undefined] written out, as a template literal or
    [encodeURIComponent] reads it. *)
Definition as_text (v : value) : value := Str (ToString v).

Definition dash : Z := unit_of "-".

Definition octet (b : Z) : Prop := 0 <= b < 256.

(** A Unicode code point. *)
Definition code_point (cp : Z) : Prop := 0 <= cp < 0x110000.

(** The characters an escaped string is made of. *)
Definition escaped_char (c : Z) : Prop :=
  rfc3986_unreserved c = true \/ In c (lit "%0123456789ABCDEF").

(** The code units of a code point (UTF-16), the inverse of reading a
    surrogate pair. *)
Definition utf16_units (cp : Z) : js_string :=
  if cp <? 0x10000 then [cp]
  else [0xD800 + (cp - 0x10000) / 0x400; 0xDC00 + (cp - 0x10000) mod 0x400].

(** An entry as the signer reads it: the key and the text of the value. *)
Definition text_entry (kv : js_string * value) : js_string * js_string :=
  (fst kv, ToString (snd kv)).

Definition entry_in_range (kv : js_string * value) : Prop :=
  Forall code_unit (fst kv) /\ Forall code_unit (ToString (snd kv)).

Section SignStr.

Context {engine : Engine}.

(** The first two statements of [getSignature]: the string handed to HMAC. *)
Definition signStr_of (params : object) (method : option js_string) : M js_string :=
  let method := default_param (lit "GET") method in
  pairs <- mapM (fun key =>
                   k <- escaper (Str key) ;;
                   v <- escaper (get params key) ;;
                   ret (k ++ lit "=" ++ v))
                (Array_sort (Object_keys params)) ;;
  let canonicalizedQS := join (lit "&") pairs in
  let upper := toUpperCase method in
  slash <- escaper (Str (lit "/")) ;;
  query <- escaper (Str canonicalizedQS) ;;
  ret (upper ++ lit "&" ++ slash ++ lit "&" ++ query).

End SignStr.
(** ** Published vectors for the primitives *)

Example sha1_abc :
  hex_lower (SHA1.digest (utf8_buffer (lit "abc")))
  = lit "a9993e364706816aba3e25717850c26c9cd0d89d".
Proof. vm_compute. reflexivity. Qed.

Example sha1_empty :
  hex_lower (SHA1.digest []) = lit "da39a3ee5e6b4b0d3255bfef95601890afd80709".
Proof. vm_compute. reflexivity. Qed.

Example sha1_two_blocks :
  hex_lower (SHA1.digest (utf8_buffer
    (lit "abcdbcdecdefdefgefghfghighijhijkijkljklmklmnlmnomnopnopq")))
  = lit "84983e441c3bd26ebaae4aa1f95129e5e54670f1".
Proof. vm_compute. reflexivity. Qed.

Example hmac_sha1_fox :
  hex_lower (HMAC.sha1 (utf8_buffer (lit "key"))
    (utf8_buffer (lit "The quick brown fox jumps over the lazy dog")))
  = lit "de7c9b85b8b78aa6bc8a7a36f70a90701c9db4d9".
Proof. vm_compute. reflexivity. Qed.

Example hmac_sha1_empty :
  hex_lower (HMAC.sha1 [] []) = lit "fbdb1d1b18aa6c08324b7d64b71fb76370690e1d".
Proof. vm_compute. reflexivity. Qed.

Example base64_vectors :
  Base64.encode (utf8_buffer (lit "Man")) = lit "TWFu"
  /\ Base64.encode (utf8_buffer (lit "Ma")) = lit "TWE="
  /\ Base64.encode (utf8_buffer (lit "M")) = lit "TQ==".
Proof. vm_compute. repeat split. Qed.


Example documented_signature :
  fst (getSignature (engine := ascii_engine) documented_params
         (Str (lit "testsecret")) None sample_world)
  = Returned (lit "CT9X0VtwR86fNWSnsc6v8YGOjuE=").
Proof. vm_compute. reflexivity. Qed.

(** * Properties *)

(** ** Equality and order on strings *)

Lemma str_eqb_spec (a b : js_string) : reflect (a = b) (str_eqb a b).
Proof.
  revert b. induction a as [|x a IH]; intros [|y b]; simpl; try (constructor; congruence).
  destruct (Z.eqb_spec x y) as [->|Hne]; simpl.
  - destruct (IH b) as [->|Hne]; constructor; congruence.
  - constructor; congruence.
Qed.

Lemma str_eqb_refl (a : js_string) : str_eqb a a = true.
Proof. destruct (str_eqb_spec a a); congruence. Qed.

Lemma str_eqb_neq (a b : js_string) : a <> b -> str_eqb a b = false.
Proof. destruct (str_eqb_spec a b); congruence. Qed.

Lemma lit_code_units (s : string) : Forall code_unit (lit s).
Proof.
  unfold lit. apply Forall_forall. intros c Hc.
  apply in_map_iff in Hc. destruct Hc as [a [<- _]].
  unfold code_unit. pose proof (N_ascii_bounded a). lia.
Qed.

Lemma str_ltb_irrefl (a : list Z) : str_ltb a a = false.
Proof.
  induction a as [|x a IH]; simpl; [reflexivity|].
  rewrite Z.ltb_irrefl. exact IH.
Qed.

Lemma str_ltb_trichotomy (a b : list Z) :
  str_ltb a b = false -> str_ltb b a = false -> a = b.
Proof.
  revert b. induction a as [|x a IH]; intros [|y b]; simpl; try congruence.
  destruct (Z.ltb_spec x y), (Z.ltb_spec y x); try congruence; try lia.
  intros H1 H2. f_equal; [lia | auto].
Qed.

Lemma str_ltb_trans (a b c : list Z) :
  str_ltb a b = true -> str_ltb b c = true -> str_ltb a c = true.
Proof.
  revert b c. induction a as [|x a IH]; intros [|y b] [|z c]; simpl; try congruence.
  destruct (Z.ltb_spec x y), (Z.ltb_spec y x), (Z.ltb_spec y z), (Z.ltb_spec z y),
    (Z.ltb_spec x z), (Z.ltb_spec z x); try congruence; try lia.
  apply IH.
Qed.

Lemma str_leb_total (a b : list Z) : str_leb a b = true \/ str_leb b a = true.
Proof.
  unfold str_leb.
  destruct (str_ltb b a) eqn:Hba; [right | left; reflexivity].
  destruct (str_ltb a b) eqn:Hab; [|reflexivity].
  pose proof (str_ltb_trans _ _ _ Hab Hba) as H.
  rewrite str_ltb_irrefl in H. discriminate.
Qed.

Lemma str_leb_antisym (a b : list Z) :
  str_leb a b = true -> str_leb b a = true -> a = b.
Proof.
  unfold str_leb. intros H1 H2.
  apply str_ltb_trichotomy; [destruct (str_ltb a b) | destruct (str_ltb b a)];
    simpl in *; congruence.
Qed.

Lemma str_leb_trans (a b c : list Z) :
  str_leb a b = true -> str_leb b c = true -> str_leb a c = true.
Proof.
  unfold str_leb. intros H1 H2.
  destruct (str_ltb c a) eqn:Hca; [|reflexivity].
  destruct (str_ltb a b) eqn:Hab.
  - rewrite (str_ltb_trans _ _ _ Hca Hab) in H2. discriminate.
  - assert (a = b) as ->.
    { apply str_ltb_trichotomy; [assumption|].
      destruct (str_ltb b a); simpl in *; congruence. }
    rewrite Hca in H2. discriminate.
Qed.

(** ** Insertion sort: a permutation, sorted, and the only such list *)

Section SortingFacts.

Context {A : Type}.
Variable leb : A -> A -> bool.

Lemma insert_perm (x : A) (l : list A) : Permutation (insert leb x l) (x :: l).
Proof.
  induction l as [|y l IH]; simpl; [reflexivity|].
  destruct (leb x y); [reflexivity|].
  rewrite IH. apply perm_swap.
Qed.

Lemma isort_perm (l : list A) : Permutation (isort leb l) l.
Proof.
  induction l as [|x l IH]; simpl; [reflexivity|].
  rewrite insert_perm. now constructor.
Qed.

Hypothesis leb_total : forall a b, leb a b = true \/ leb b a = true.
Hypothesis leb_trans : forall a b c, leb a b = true -> leb b c = true -> leb a c = true.

Let le (a b : A) : Prop := leb a b = true.

Lemma insert_sorted (x : A) (l : list A) :
  StronglySorted le l -> StronglySorted le (insert leb x l).
Proof.
  induction 1 as [|y l Hs IH Hall]; simpl.
  - repeat constructor.
  - destruct (leb x y) eqn:Hxy.
    + constructor; [now constructor|].
      constructor; [exact Hxy|].
      eapply Forall_impl; [|exact Hall].
      intros z Hz. exact (leb_trans _ _ _ Hxy Hz).
    + constructor; [exact IH|].
      assert (Hyx : le y x) by (destruct (leb_total x y); [congruence | assumption]).
      eapply Permutation_Forall; [symmetry; apply insert_perm|].
      now constructor.
Qed.

Lemma isort_sorted (l : list A) : StronglySorted le (isort leb l).
Proof.
  induction l as [|x l IH]; simpl; [constructor | now apply insert_sorted].
Qed.

Hypothesis leb_antisym : forall a b, leb a b = true -> leb b a = true -> a = b.

Lemma sorted_perm_eq (l1 l2 : list A) :
  StronglySorted le l1 -> StronglySorted le l2 -> Permutation l1 l2 -> l1 = l2.
Proof.
  intros H1. revert l2. induction H1 as [|a l1 Hs1 IH Hall1]; intros l2 H2 Hp.
  - now apply Permutation_nil in Hp.
  - destruct H2 as [|b l2 Hs2 Hall2].
    + symmetry in Hp. now apply Permutation_nil in Hp.
    + assert (a = b) as ->.
      { assert (Ha : In a (b :: l2)) by (eapply Permutation_in; [exact Hp | now left]).
        assert (Hb : In b (a :: l1))
          by (eapply Permutation_in; [symmetry; exact Hp | now left]).
        destruct Ha as [Ha|Ha]; [now symmetry|].
        destruct Hb as [Hb|Hb]; [assumption|].
        rewrite Forall_forall in Hall1, Hall2.
        apply leb_antisym; [apply Hall1 | apply Hall2]; assumption. }
      f_equal. apply IH; [assumption|].
      now apply Permutation_cons_inv in Hp.
Qed.

Lemma isort_unique (l1 l2 : list A) :
  Permutation l1 l2 -> isort leb l1 = isort leb l2.
Proof.
  intros Hp. apply sorted_perm_eq; try apply isort_sorted.
  rewrite !isort_perm. exact Hp.
Qed.

End SortingFacts.

Lemma Array_sort_perm (l : list js_string) : Permutation (Array_sort l) l.
Proof. apply isort_perm. Qed.

Lemma Array_sort_unique (l1 l2 : list js_string) :
  Permutation l1 l2 -> Array_sort l1 = Array_sort l2.
Proof.
  apply isort_unique;
    [exact str_leb_total | exact str_leb_trans | exact str_leb_antisym].
Qed.

(** Whatever sorted permutation the engine's algorithm produces, it is this one. *)
Lemma Array_sort_any_algorithm (l sorted : list js_string) :
  Permutation sorted l ->
  StronglySorted (fun a b => str_leb a b = true) sorted ->
  sorted = Array_sort l.
Proof.
  intros Hp Hs.
  apply (sorted_perm_eq str_leb str_leb_antisym); [exact Hs | |].
  - apply isort_sorted; [exact str_leb_total | exact str_leb_trans].
  - rewrite Hp. symmetry. apply Array_sort_perm.
Qed.

(** ** Objects *)

Lemma lookup_define (o : object) (k k' : js_string) (v : value) :
  lookup (define o k v) k' = if str_eqb k k' then Some v else lookup o k'.
Proof.
  induction o as [|[k0 v0] o IH]; simpl.
  - reflexivity.
  - destruct (str_eqb_spec k0 k) as [->|Hne]; simpl.
    + destruct (str_eqb k k'); reflexivity.
    + rewrite IH. destruct (str_eqb_spec k k') as [->|Hne'].
      * now rewrite (str_eqb_neq _ _ Hne).
      * reflexivity.
Qed.

(** Assignment stores the value unless the key is "__proto__" and the object
    has no own property of that name. *)
Lemma lookup_set_gen (o : object) (k k' : js_string) (v : value) :
  lookup (set o k v) k'
  = if str_eqb k k' && (negb (str_eqb k (lit "__proto__")) || has_own o k)
    then Some v else lookup o k'.
Proof.
  unfold set.
  destruct (str_eqb k (lit "__proto__")), (has_own o k); cbn [andb negb orb];
    rewrite ?lookup_define, ?andb_true_r, ?andb_false_r; reflexivity.
Qed.

Lemma lookup_set (o : object) (k k' : js_string) (v : value) :
  str_eqb k (lit "__proto__") = false ->
  lookup (set o k v) k' = if str_eqb k k' then Some v else lookup o k'.
Proof. intros H. rewrite lookup_set_gen, H. cbn [negb orb]. now rewrite andb_true_r. Qed.

Lemma has_own_set_gen (o : object) (k k' : js_string) (v : value) :
  has_own (set o k v) k'
  = (str_eqb k k' && (negb (str_eqb k (lit "__proto__")) || has_own o k))
    || has_own o k'.
Proof.
  unfold has_own at 1. rewrite lookup_set_gen.
  destruct (str_eqb k k' && _); [reflexivity|].
  unfold has_own. now destruct (lookup o k').
Qed.

Lemma lookup_none_iff (o : object) (k : js_string) :
  lookup o k = None <-> ~ In k (map fst o).
Proof.
  induction o as [|[k0 v0] o IH]; simpl.
  - tauto.
  - destruct (str_eqb_spec k0 k) as [->|Hne].
    + split; [discriminate | intros H; exfalso; apply H; now left].
    + rewrite IH. tauto.
Qed.

Lemma has_own_iff (o : object) (k : js_string) :
  has_own o k = true <-> In k (map fst o).
Proof.
  unfold has_own. pose proof (lookup_none_iff o k) as H.
  destruct (lookup o k).
  - split; [intros _ | reflexivity].
    destruct (in_dec (list_eq_dec Z.eq_dec) k (map fst o)) as [Hin|Hn]; [assumption|].
    apply H in Hn. discriminate.
  - split; [discriminate|]. intros Hin. exfalso. now apply H.
Qed.

Lemma lookup_unique (o : object) (k : js_string) (v : value) :
  own_keys_unique o -> In (k, v) o -> lookup o k = Some v.
Proof.
  unfold own_keys_unique. induction o as [|[k0 v0] o IH]; simpl; intros Hnd Hin.
  - contradiction.
  - inversion Hnd as [|? ? Hnotin Hnd']; subst.
    destruct Hin as [Heq|Hin].
    + inversion Heq; subst. now rewrite str_eqb_refl.
    + destruct (str_eqb_spec k0 k) as [->|Hne].
      * exfalso. apply Hnotin. now apply (in_map fst) in Hin.
      * now apply IH.
Qed.

Lemma remove_define_fresh (o : object) (k : js_string) (v : value) :
  has_own o k = false -> remove (define o k v) k = o.
Proof.
  unfold has_own. induction o as [|[k0 v0] o IH]; simpl.
  - now rewrite str_eqb_refl.
  - destruct (str_eqb k0 k) eqn:E; [discriminate|].
    intros H. simpl. rewrite E. now rewrite IH.
Qed.

Lemma set_ordinary (o : object) (k : js_string) (v : value) :
  str_eqb k (lit "__proto__") = false -> set o k v = define o k v.
Proof. intros H. unfold set. now rewrite H. Qed.

Lemma remove_set_fresh (o : object) (k : js_string) (v : value) :
  str_eqb k (lit "__proto__") = false ->
  has_own o k = false -> remove (set o k v) k = o.
Proof. intros Hk H. rewrite (set_ordinary _ _ _ Hk). now apply remove_define_fresh. Qed.

Lemma filter_partition_perm {A : Type} (f : A -> bool) (l : list A) :
  Permutation (filter f l ++ filter (fun x => negb (f x)) l) l.
Proof.
  induction l as [|x l IH]; simpl; [reflexivity|].
  destruct (f x); simpl.
  - now constructor.
  - rewrite <- Permutation_middle. now constructor.
Qed.

Lemma Object_keys_perm (o : object) : Permutation (Object_keys o) (map fst o).
Proof.
  unfold Object_keys. rewrite isort_perm. apply filter_partition_perm.
Qed.

Lemma In_Object_keys (o : object) (k : js_string) :
  In k (Object_keys o) <-> In k (map fst o).
Proof.
  split; apply Permutation_in; [|symmetry]; apply Object_keys_perm.
Qed.

Lemma lookup_fold_set (s : object) (l : list js_string) (t : object) (k : js_string) :
  lookup (fold_left (fun t k => set t k (get s k)) l t) k
  = if existsb (str_eqb k) l
       && (negb (str_eqb k (lit "__proto__")) || has_own t k)
    then Some (get s k) else lookup t k.
Proof.
  revert t. induction l as [|k0 l IH]; intros t; simpl; [reflexivity|].
  rewrite IH, lookup_set_gen, has_own_set_gen.
  destruct (str_eqb_spec k k0) as [->|Hne].
  - rewrite str_eqb_refl.
    destruct (str_eqb k0 (lit "__proto__")), (has_own t k0),
      (existsb (str_eqb k0) l); reflexivity.
  - rewrite (str_eqb_neq k0 k) by congruence. reflexivity.
Qed.

(** A property of the target survives [Object.assign] unless the source has
    it; an own "__proto__" of the source is dropped unless the target has
    one of its own. *)
Lemma lookup_assign1 (t s : object) (k : js_string) :
  lookup (assign1 t s) k
  = match lookup s k with
    | Some v =>
        if negb (str_eqb k (lit "__proto__")) || has_own t k
        then Some v else lookup t k
    | None => lookup t k
    end.
Proof.
  unfold assign1. rewrite lookup_fold_set.
  destruct (existsb (str_eqb k) (Object_keys s)) eqn:E.
  - apply existsb_exists in E. destruct E as [k' [Hin Heq]].
    destruct (str_eqb_spec k k') as [<-|]; [|discriminate].
    apply In_Object_keys, has_own_iff in Hin.
    unfold has_own in Hin. unfold get. cbn [andb].
    destruct (lookup s k); [reflexivity | discriminate].
  - cbn [andb]. destruct (lookup s k) eqn:El; [|reflexivity].
    assert (Hin : In k (Object_keys s)).
    { apply In_Object_keys, has_own_iff. unfold has_own. now rewrite El. }
    assert (existsb (str_eqb k) (Object_keys s) = true).
    { apply existsb_exists. exists k. split; [assumption | apply str_eqb_refl]. }
    congruence.
Qed.

(** ** Silent computations *)

Lemma silent_run {A : Type} (m : M A) (w w' : world) :
  silent m -> m w' = (fst (m w), w').
Proof.
  intros H. destruct (H w' w) as [H1 H2].
  rewrite <- H1. rewrite <- H2 at 3. now destruct (m w').
Qed.

Lemma silent_ret {A : Type} (a : A) : silent (ret a).
Proof. intros w w'. split; reflexivity. Qed.

Lemma silent_host {A : Type} (c : completion A) : silent (host c).
Proof. intros w w'. split; reflexivity. Qed.

Lemma silent_bind {A B : Type} (m : M A) (k : A -> M B) :
  silent m -> (forall a, silent (k a)) -> silent (bind m k).
Proof.
  intros Hm Hk w w'. unfold bind.
  rewrite (silent_run m w w Hm), (silent_run m w w' Hm).
  destruct (fst (m w)) as [a|e]; [apply Hk | split; reflexivity].
Qed.

Lemma silent_mapM {A B : Type} (f : A -> M B) (l : list A) :
  (forall a, silent (f a)) -> silent (mapM f l).
Proof.
  intros Hf. induction l as [|x l IH]; simpl.
  - apply silent_ret.
  - apply silent_bind; [apply Hf|]. intros y.
    apply silent_bind; [apply IH|]. intros ys. apply silent_ret.
Qed.

Lemma silent_escaper (v : value) : silent (escaper v).
Proof.
  unfold escaper, encodeURIComponent.
  apply silent_bind; [apply silent_host|]. intros s. apply silent_ret.
Qed.

Lemma silent_getSignature {engine : Engine} (params : object) (secret : value)
    (method : option js_string) :
  silent (getSignature params secret method).
Proof.
  unfold getSignature.
  apply silent_bind.
  - apply silent_mapM. intros key.
    apply silent_bind; [apply silent_escaper|]. intros k.
    apply silent_bind; [apply silent_escaper|]. intros v. apply silent_ret.
  - intros pairs.
    apply silent_bind; [apply silent_escaper|]. intros slash.
    apply silent_bind; [apply silent_escaper|]. intros query. apply silent_ret.
Qed.

Lemma mapM_ext {A B : Type} (f g : A -> M B) (l : list A) :
  (forall a, In a l -> f a = g a) -> mapM f l = mapM g l.
Proof.
  induction l as [|x l IH]; intros H; simpl; [reflexivity|].
  rewrite (H x) by now left.
  rewrite IH; [reflexivity|]. intros a Ha. apply H. now right.
Qed.

(** A map whose steps are silent and fail only with [e]. *)
Lemma mapM_run {A B : Type} (f : A -> M B) (ok : A -> bool) (g : A -> B)
    (e : error) (l : list A) (w : world) :
  (forall a w, f a w = (if ok a then Returned (g a) else Threw e, w)) ->
  mapM f l w = (if forallb ok l then Returned (map g l) else Threw e, w).
Proof.
  intros Hf. induction l as [|x l IH]; simpl; [reflexivity|].
  unfold bind at 1. rewrite Hf.
  destruct (ok x); simpl; [|reflexivity].
  unfold bind at 1. rewrite IH.
  destruct (forallb ok l); reflexivity.
Qed.

(** ** The escaper *)

Ltac eval_lits :=
  repeat match goal with
  | |- context [lit ?s] =>
      let l := eval vm_compute in (lit s) in change (lit s) with l
  | H : context [lit ?s] |- _ =>
      let l := eval vm_compute in (lit s) in change (lit s) with l in H
  | |- context [unit_of ?a] =>
      let l := eval vm_compute in (unit_of a) in change (unit_of a) with l
  end.

Ltac bool_to_Z :=
  repeat match goal with
  | H : _ && _ = true |- _ => apply andb_true_iff in H; destruct H
  | H : _ || _ = true |- _ => apply orb_true_iff in H; destruct H
  | H : _ && _ = false |- _ => apply andb_false_iff in H; destruct H
  | H : _ || _ = false |- _ => apply orb_false_iff in H; destruct H
  | H : negb _ = true |- _ => apply negb_true_iff in H
  | H : negb _ = false |- _ => apply negb_false_iff in H
  | H : (_ <=? _) = true |- _ => apply Z.leb_le in H
  | H : (_ <=? _) = false |- _ => apply Z.leb_gt in H
  | H : (_ <? _) = true |- _ => apply Z.ltb_lt in H
  | H : (_ <? _) = false |- _ => apply Z.ltb_ge in H
  | H : (_ =? _) = true |- _ => apply Z.eqb_eq in H
  | H : (_ =? _) = false |- _ => apply Z.eqb_neq in H
  | H : false = true |- _ => discriminate H
  | H : true = false |- _ => discriminate H
  end.

Lemma uriUnescaped_range (c : Z) : uriUnescaped c = true -> 33 <= c <= 126.
Proof.
  unfold uriUnescaped, is_alpha, is_digit, is_uri_mark. eval_lits. simpl existsb.
  intros H. bool_to_Z; lia.
Qed.

Lemma rfc3986_unreserved_range (c : Z) : rfc3986_unreserved c = true -> 45 <= c <= 126.
Proof.
  unfold rfc3986_unreserved, is_alpha, is_digit. eval_lits. simpl existsb.
  intros H. bool_to_Z; lia.
Qed.

(** [encodeURIComponent] keeps the unreserved characters and the five the
    escaper rewrites, and nothing else. *)
Lemma uriUnescaped_split (c : Z) :
  uriUnescaped c = rfc3986_unreserved c || existsb (Z.eqb c) rewritten.
Proof.
  unfold uriUnescaped, rfc3986_unreserved, is_uri_mark, rewritten. eval_lits.
  simpl existsb.
  destruct (is_alpha c), (is_digit c), (c =? 45), (c =? 95), (c =? 46), (c =? 33),
    (c =? 126), (c =? 42), (c =? 39), (c =? 40), (c =? 41); reflexivity.
Qed.

Lemma surrogate_range (c : Z) :
  (is_leading_surrogate c = true -> 0xD800 <= c <= 0xDBFF)
  /\ (is_trailing_surrogate c = true -> 0xDC00 <= c <= 0xDFFF).
Proof.
  unfold is_leading_surrogate, is_trailing_surrogate.
  split; intros H; bool_to_Z; lia.
Qed.

Lemma not_surrogate_below (c : Z) :
  c <= 126 -> is_leading_surrogate c = false /\ is_trailing_surrogate c = false.
Proof.
  unfold is_leading_surrogate, is_trailing_surrogate. intros H.
  split; apply andb_false_iff; left; apply Z.leb_gt; lia.
Qed.

Lemma leading_not_trailing (c : Z) :
  is_trailing_surrogate c = true -> is_leading_surrogate c = false.
Proof.
  unfold is_leading_surrogate, is_trailing_surrogate. intros H. bool_to_Z.
  apply andb_false_iff. right. apply Z.leb_gt. lia.
Qed.

Lemma pair_not_unescaped (c d : Z) :
  is_leading_surrogate c = true -> is_trailing_surrogate d = true ->
  uriUnescaped (UTF16SurrogatePairToCodePoint c d) = false.
Proof.
  intros Hc Hd. apply surrogate_range in Hc. apply surrogate_range in Hd.
  destruct (uriUnescaped _) eqn:E; [|reflexivity].
  apply uriUnescaped_range in E. unfold UTF16SurrogatePairToCodePoint in E. lia.
Qed.

Arguments uriUnescaped : simpl never.
Arguments rfc3986_unreserved : simpl never.
Arguments is_leading_surrogate : simpl never.
Arguments is_trailing_surrogate : simpl never.
Arguments percent_encode : simpl never.
Arguments replace_chain : simpl never.
Arguments UTF16SurrogatePairToCodePoint : simpl never.

Lemma Encode_run_bounded (n : nat) (s : js_string) :
  (length s <= n)%nat ->
  Encode uriUnescaped s
  = if is_well_formed s then Returned (encoded s) else Threw URIError.
Proof.
  revert s. induction n as [|n IH]; intros [|c rest] Hlen; simpl in *;
    try reflexivity; try lia.
  destruct (uriUnescaped c) eqn:Hu.
  - pose proof (uriUnescaped_range c Hu) as Hr.
    destruct (not_surrogate_below c) as [Hl Ht]; [lia|].
    unfold encoded. simpl. rewrite Hl, Ht. simpl. rewrite Hu. simpl.
    rewrite IH by lia. destruct (is_well_formed rest); reflexivity.
  - destruct (is_trailing_surrogate c) eqn:Ht.
    + now rewrite (leading_not_trailing c Ht).
    + destruct (is_leading_surrogate c) eqn:Hl.
      * destruct rest as [|d rest']; [reflexivity|].
        destruct (is_trailing_surrogate d) eqn:Hd; simpl; [|reflexivity].
        rewrite IH by (simpl in Hlen; lia).
        unfold encoded. simpl. rewrite Hl, Hd. simpl.
        rewrite (pair_not_unescaped c d Hl Hd). simpl.
        destruct (is_well_formed rest'); reflexivity.
      * simpl. rewrite IH by lia.
        unfold encoded. simpl. rewrite Hl. simpl. rewrite Hu. simpl.
        destruct (is_well_formed rest); reflexivity.
Qed.

Lemma Encode_run (s : js_string) :
  Encode uriUnescaped s
  = if is_well_formed s then Returned (encoded s) else Threw URIError.
Proof. apply (Encode_run_bounded (length s)). lia. Qed.

Lemma replace_all_app (c : Z) (r a b : js_string) :
  replace_all c r (a ++ b) = replace_all c r a ++ replace_all c r b.
Proof. unfold replace_all. apply flat_map_app. Qed.

Lemma replace_chain_app (a b : js_string) :
  replace_chain (a ++ b) = replace_chain a ++ replace_chain b.
Proof. unfold replace_chain. now rewrite !replace_all_app. Qed.

Lemma replace_chain_unit (c : Z) :
  replace_chain [c]
  = if existsb (Z.eqb c) rewritten then percent_encode c else [c].
Proof.
  unfold replace_chain, rewritten, replace_all. eval_lits. simpl existsb.
  destruct (Z.eqb_spec c 33) as [->|H33]; [reflexivity|].
  destruct (Z.eqb_spec c 39) as [->|H39]; [reflexivity|].
  destruct (Z.eqb_spec c 40) as [->|H40]; [reflexivity|].
  destruct (Z.eqb_spec c 41) as [->|H41]; [reflexivity|].
  destruct (Z.eqb_spec c 42) as [->|H42]; [reflexivity|].
  simpl. rewrite (proj2 (Z.eqb_neq c 33) H33). simpl.
  rewrite (proj2 (Z.eqb_neq c 39) H39). simpl.
  rewrite (proj2 (Z.eqb_neq c 40) H40). simpl.
  rewrite (proj2 (Z.eqb_neq c 41) H41). simpl.
  now rewrite (proj2 (Z.eqb_neq c 42) H42).
Qed.

Lemma replace_chain_fixed (s : js_string) :
  Forall (fun c => existsb (Z.eqb c) rewritten = false) s -> replace_chain s = s.
Proof.
  induction 1 as [|c s Hc Hs IH]; [reflexivity|].
  change (c :: s) with ([c] ++ s).
  now rewrite replace_chain_app, replace_chain_unit, Hc, IH.
Qed.

Lemma hex_digit_alphabet (n : Z) : In (hex_digit n) escape_alphabet.
Proof.
  unfold hex_digit, escape_alphabet.
  destruct (nth_in_or_default (Z.to_nat n) (lit "0123456789ABCDEF") 0) as [H| ->].
  - right. right. exact H.
  - now left.
Qed.

Lemma percent_encode_alphabet (cp : Z) :
  Forall (fun c => In c escape_alphabet) (percent_encode cp).
Proof.
  unfold percent_encode. induction (utf8_of_code_point cp) as [|b bs IH]; simpl.
  - constructor.
  - constructor; [right; left; reflexivity|].
    constructor; [apply hex_digit_alphabet|].
    constructor; [apply hex_digit_alphabet | exact IH].
Qed.

Lemma escape_alphabet_not_rewritten (c : Z) :
  In c escape_alphabet -> existsb (Z.eqb c) rewritten = false.
Proof.
  unfold escape_alphabet, rewritten. eval_lits. simpl.
  intros H. repeat (destruct H as [<-|H]; [reflexivity|]). contradiction.
Qed.

Lemma replace_chain_percent_encode (cp : Z) :
  replace_chain (percent_encode cp) = percent_encode cp.
Proof.
  apply replace_chain_fixed.
  eapply Forall_impl; [|apply percent_encode_alphabet].
  apply escape_alphabet_not_rewritten.
Qed.

Lemma replace_chain_encoded (s : js_string) :
  replace_chain (encoded s) = escape_rfc3986 s.
Proof.
  unfold encoded, escape_rfc3986.
  induction (StringToCodePoints s) as [|cp cps IH]; [reflexivity|].
  simpl. rewrite replace_chain_app, IH. f_equal.
  rewrite uriUnescaped_split.
  destruct (rfc3986_unreserved cp) eqn:Hr, (existsb (Z.eqb cp) rewritten) eqn:Hx;
    cbn [orb].
  - exfalso. apply rfc3986_unreserved_range in Hr.
    revert Hx. unfold rewritten. eval_lits. simpl. intros Hx. bool_to_Z; lia.
  - now rewrite replace_chain_unit, Hx.
  - now rewrite replace_chain_unit, Hx.
  - apply replace_chain_percent_encode.
Qed.

Lemma escaper_run (v : value) (w : world) :
  escaper v w
  = (if is_well_formed (ToString v)
     then Returned (escape_rfc3986 (ToString v)) else Threw URIError, w).
Proof.
  unfold escaper, encodeURIComponent, bind, host, ret.
  rewrite Encode_run.
  destruct (is_well_formed (ToString v)); [|reflexivity].
  fold (replace_chain (encoded (ToString v))).
  now rewrite replace_chain_encoded.
Qed.

Lemma percent_encode_not_unit (c : Z) : percent_encode c <> [c].
Proof.
  unfold percent_encode, utf8_of_code_point.
  destruct (c <? 128); [|destruct (c <? 2048); [|destruct (c <? 65536)]];
    simpl; discriminate.
Qed.

(** C2 (amended).  On a string without unpaired surrogates the escaper returns
    its RFC 3986 percent-encoding: the unreserved characters A-Z a-z 0-9 - _ . ~
    are the only ones left as they are, every other character, the five
    ! ' ( ) * included, is written as the percent-escaped octets of its UTF-8
    form.  On a string with an unpaired surrogate it throws URIError.  Either
    way the outcome does not depend on the world and the world is unchanged.
    In particular escaper("!'()*") is "%21%27%28%29%2A" and escaper("") is "". *)
Theorem escaper_rfc3986 :
  (forall (s : js_string) (w : world),
     escaper (Str s) w
     = (if is_well_formed s then Returned (escape_rfc3986 s) else Threw URIError, w))
  /\ (forall (c : Z) (w : world),
        escaper (Str [c]) w = (Returned [c], w) <-> rfc3986_unreserved c = true)
  /\ (forall w : world,
        escaper (Str (lit "!'()*")) w = (Returned (lit "%21%27%28%29%2A"), w))
  /\ (forall w : world, escaper (Str []) w = (Returned [], w)).
Proof.
  split; [|split; [|split]].
  - intros s w. apply escaper_run.
  - intros c w. rewrite escaper_run. simpl ToString.
    unfold escape_rfc3986.
    assert (Hcp : StringToCodePoints [c] = [c])
      by (simpl; destruct (is_leading_surrogate c); reflexivity).
    rewrite Hcp. simpl flat_map. rewrite app_nil_r. split.
    + destruct (is_well_formed [c]); [|discriminate].
      destruct (rfc3986_unreserved c); [reflexivity|].
      intros H. inversion H as [H']. now apply percent_encode_not_unit in H'.
    + intros Hu. rewrite Hu.
      apply rfc3986_unreserved_range in Hu.
      destruct (not_surrogate_below c) as [Hl Ht]; [lia|].
      simpl. now rewrite Hl, Ht.
  - intros w. rewrite escaper_run. vm_compute. reflexivity.
  - intros w. rewrite escaper_run. reflexivity.
Qed.

(** C2 as stated fails: the escaper is not total, a lone leading surrogate
    makes it throw. *)
Lemma escaper_lone_surrogate :
  fst (escaper (Str [0xD800]) sample_world) = Threw URIError.
Proof. vm_compute. reflexivity. Qed.

(** ** The signer *)

Lemma insert_map {A B : Type} (f : A -> B) (leb : B -> B -> bool) (x : A) (l : list A) :
  map f (insert (fun a b => leb (f a) (f b)) x l) = insert leb (f x) (map f l).
Proof.
  induction l as [|y l IH]; simpl; [reflexivity|].
  destruct (leb (f x) (f y)); simpl; [reflexivity | now rewrite IH].
Qed.

Lemma isort_map {A B : Type} (f : A -> B) (leb : B -> B -> bool) (l : list A) :
  map f (isort (fun a b => leb (f a) (f b)) l) = isort leb (map f l).
Proof.
  induction l as [|x l IH]; simpl; [reflexivity|].
  now rewrite insert_map, IH.
Qed.

Lemma lookup_In (o : object) (k : js_string) (v : value) :
  lookup o k = Some v -> In (k, v) o.
Proof.
  induction o as [|[k0 v0] o IH]; simpl; [discriminate|].
  destruct (str_eqb_spec k0 k) as [->|Hne].
  - intros H. inversion H. now left.
  - intros H. right. now apply IH.
Qed.

Lemma lookup_perm (o1 o2 : object) (k : js_string) :
  own_keys_unique o1 -> Permutation o1 o2 -> lookup o1 k = lookup o2 k.
Proof.
  intros Hnd Hp.
  assert (Hnd2 : own_keys_unique o2).
  { unfold own_keys_unique in *. eapply Permutation_NoDup; [|exact Hnd].
    now apply Permutation_map. }
  destruct (lookup o1 k) as [v|] eqn:E1.
  - symmetry. apply lookup_unique; [assumption|].
    eapply Permutation_in; [exact Hp|]. now apply lookup_In.
  - destruct (lookup o2 k) as [v|] eqn:E2; [|reflexivity].
    apply lookup_In in E2. apply lookup_none_iff in E1. exfalso. apply E1.
    apply (in_map fst) in E2. simpl in E2.
    eapply Permutation_in; [|exact E2]. apply Permutation_map. now symmetry.
Qed.

Lemma forallb_perm {A : Type} (f : A -> bool) (l1 l2 : list A) :
  Permutation l1 l2 -> forallb f l1 = forallb f l2.
Proof.
  induction 1 as [|x l1 l2 _ IH|x y l|l1 l2 l3 _ IH1 _ IH2]; simpl.
  - reflexivity.
  - now rewrite IH.
  - destruct (f x), (f y); reflexivity.
  - congruence.
Qed.

Lemma sorted_keys_of_entries (params : object) :
  Array_sort (Object_keys params)
  = map fst (entries_sorted_by_key str_leb params).
Proof.
  unfold entries_sorted_by_key. rewrite isort_map.
  apply Array_sort_unique, Object_keys_perm.
Qed.

Lemma plain_well_formed (s : js_string) : plain s -> is_well_formed s = true.
Proof.
  induction 1 as [|c s Hc Hs IH]; simpl; [reflexivity|].
  destruct (not_surrogate_below c Hc) as [Hl Ht]. now rewrite Hl, Ht, IH.
Qed.

Lemma plain_app (a b : js_string) : plain a -> plain b -> plain (a ++ b).
Proof. intros Ha Hb. apply Forall_app. now split. Qed.

Lemma plain_percent_encode (cp : Z) : plain (percent_encode cp).
Proof.
  eapply Forall_impl; [|apply percent_encode_alphabet].
  unfold escape_alphabet. eval_lits. simpl.
  intros c H. repeat (destruct H as [<-|H]; [lia|]). contradiction.
Qed.

Lemma plain_escape (s : js_string) : plain (escape_rfc3986 s).
Proof.
  unfold escape_rfc3986. induction (StringToCodePoints s) as [|cp cps IH]; simpl.
  - constructor.
  - apply plain_app; [|exact IH].
    destruct (rfc3986_unreserved cp) eqn:Hu.
    + apply rfc3986_unreserved_range in Hu. repeat constructor. lia.
    + apply plain_percent_encode.
Qed.

Lemma plain_entry_text (kv : js_string * value) : plain (entry_text kv).
Proof.
  unfold entry_text. repeat apply plain_app; try apply plain_escape.
  repeat constructor. vm_compute. discriminate.
Qed.

Lemma plain_join (l : list js_string) :
  Forall plain l -> plain (join (lit "&") l).
Proof.
  intros [|x l' Hx Hl]; simpl; [constructor|].
  apply plain_app; [exact Hx|].
  induction Hl as [|y l' Hy Hl IH]; simpl; [constructor|].
  constructor; [lia|]. now apply plain_app.
Qed.

Lemma plain_canonical_query (key_leb : js_string -> js_string -> bool) (params : object) :
  plain (canonical_query key_leb params).
Proof.
  unfold canonical_query. apply plain_join.
  apply Forall_forall. intros x Hx. apply in_map_iff in Hx.
  destruct Hx as [kv [<- _]]. apply plain_entry_text.
Qed.

Section SignerFacts.

Context {engine : Engine}.

(** What one step of the [map] in [getSignature] does. *)
Lemma pair_run (params : object) (key : js_string) (w : world) :
  (k <- escaper (Str key) ;;
   v <- escaper (get params key) ;;
   ret (k ++ lit "=" ++ v)) w
  = (if is_well_formed key && is_well_formed (ToString (get params key))
     then Returned (entry_text (key, get params key))
     else Threw URIError, w).
Proof.
  unfold bind. rewrite escaper_run. simpl ToString.
  destruct (is_well_formed key); [|reflexivity].
  rewrite escaper_run.
  destruct (is_well_formed (ToString (get params key))); reflexivity.
Qed.

Lemma entries_agree (params : object) (l : list (js_string * value)) :
  own_keys_unique params -> incl l params ->
  forallb (fun key => is_well_formed key && is_well_formed (ToString (get params key)))
          (map fst l)
  = forallb (fun kv => is_well_formed (fst kv) && is_well_formed (ToString (snd kv))) l
  /\ map (fun key => entry_text (key, get params key)) (map fst l)
     = map entry_text l.
Proof.
  intros Hnd. induction l as [|[k v] l IH]; intros Hincl; simpl; [split; reflexivity|].
  assert (Hget : get params k = v).
  { unfold get. rewrite (lookup_unique params k v Hnd); [reflexivity|].
    apply Hincl. now left. }
  destruct IH as [IH1 IH2]; [intros x Hx; apply Hincl; now right|].
  rewrite Hget, IH1, IH2. split; reflexivity.
Qed.

End SignerFacts.

(** C1 (amended).  On an object with its own keys distinct, the signer
    returns base64(HMAC-SHA1(key = secret + "&", message = uppercase(method) +
    "&" + escape("/") + "&" + escape(Q))), where Q joins with "&" the entries
    escape(key) + "=" + escape(value) sorted ascending by key in the order of
    UTF-16 code units, provided that no key and no value has an unpaired
    surrogate; otherwise it throws URIError. *)
Theorem getSignature_formula {engine : Engine} (params : object) (secret : value)
    (method : option js_string) (w : world) :
  own_keys_unique params ->
  getSignature params secret method w
  = (if params_well_formed params
     then Returned (signature_formula str_leb params secret
                      (default_param (lit "GET") method))
     else Threw URIError, w).
Proof.
  intros Hnd. unfold getSignature. unfold bind at 1.
  rewrite (mapM_run _
             (fun key => is_well_formed key
                         && is_well_formed (ToString (get params key)))
             (fun key => entry_text (key, get params key)) URIError)
    by (intros a w'; apply pair_run).
  rewrite sorted_keys_of_entries.
  assert (Hincl : incl (entries_sorted_by_key str_leb params) params).
  { intros x Hx. eapply Permutation_in; [apply isort_perm | exact Hx]. }
  destruct (entries_agree params _ Hnd Hincl) as [Hok Htxt].
  rewrite Hok, Htxt.
  unfold entries_sorted_by_key at 1.
  rewrite (forallb_perm _ _ params) by apply isort_perm.
  fold (params_well_formed params).
  destruct (params_well_formed params); [|reflexivity].
  fold (canonical_query str_leb params).
  unfold bind. rewrite !escaper_run. simpl ToString.
  rewrite (plain_well_formed _ (plain_canonical_query str_leb params)).
  change (is_well_formed (lit "/")) with true. cbv iota.
  reflexivity.
Qed.

Lemma getSignature_formula_witness :
  own_keys_unique documented_params
  /\ getSignature (engine := ascii_engine) documented_params (Str (lit "testsecret"))
       None sample_world
     = (if params_well_formed documented_params
        then Returned (signature_formula (engine := ascii_engine) str_leb
                         documented_params (Str (lit "testsecret"))
                         (default_param (lit "GET") None))
        else Threw URIError, sample_world).
Proof.
  assert (H : own_keys_unique documented_params).
  { unfold own_keys_unique. vm_compute.
    repeat (constructor; [simpl; intuition discriminate|]). constructor. }
  split; [exact H|].
  apply (getSignature_formula (engine := ascii_engine) documented_params
           (Str (lit "testsecret")) None sample_world H).
Defined.

(** The two orders on the keys U+FF61 and U+10000. *)
Example astral_keys_as_sorted :
  Array_sort (Object_keys astral_params) = [[0xD800; 0xDC00]; [0xFF61]].
Proof. reflexivity. Qed.

Example astral_keys_by_code_point :
  map fst (entries_sorted_by_key code_point_leb astral_params)
  = [[0xFF61]; [0xD800; 0xDC00]].
Proof. reflexivity. Qed.

(** Without surrogates the code units are the code points, and the two orders
    are one. *)
Lemma code_points_without_surrogates (s : js_string) :
  Forall (fun c => is_leading_surrogate c = false) s -> StringToCodePoints s = s.
Proof.
  induction 1 as [|c s Hc Hs IH]; simpl; [reflexivity|]. now rewrite Hc, IH.
Qed.

Lemma code_point_order_without_surrogates (a b : js_string) :
  Forall (fun c => is_leading_surrogate c = false) a ->
  Forall (fun c => is_leading_surrogate c = false) b ->
  code_point_leb a b = str_leb a b.
Proof.
  intros Ha Hb. unfold code_point_leb.
  now rewrite !code_points_without_surrogates.
Qed.

(** C1 as stated fails: with the keys U+FF61 and U+10000 the signer's order
    (code units: D800 DC00 before FF61) is not the code point order, and the
    signature returned is not the one the formula gives for that order. *)
Lemma getSignature_not_code_point_order :
  fst (getSignature (engine := ascii_engine) astral_params (Str (lit "secret"))
         (Some (lit "GET")) sample_world)
  <> Returned (signature_formula (engine := ascii_engine) code_point_leb
                 astral_params (Str (lit "secret")) (lit "GET")).
Proof. vm_compute. discriminate. Qed.

(** C7.  Two objects with the same entries, created in different orders, get
    the same signature (or the same error) for every secret and method. *)
Theorem getSignature_insertion_order {engine : Engine} (params1 params2 : object)
    (secret : value) (method : option js_string) (w : world) :
  own_keys_unique params1 ->
  Permutation params1 params2 ->
  getSignature params1 secret method w = getSignature params2 secret method w.
Proof.
  intros Hnd Hp. unfold getSignature.
  assert (Hkeys : Array_sort (Object_keys params1) = Array_sort (Object_keys params2)).
  { apply Array_sort_unique.
    rewrite !Object_keys_perm. now apply Permutation_map. }
  rewrite Hkeys.
  rewrite (mapM_ext _ (fun key =>
             k <- escaper (Str key) ;;
             v <- escaper (get params2 key) ;;
             ret (k ++ lit "=" ++ v))); [reflexivity|].
  intros key _. unfold get. now rewrite (lookup_perm params1 params2 key Hnd Hp).
Qed.

Lemma getSignature_insertion_order_witness :
  getSignature (engine := ascii_engine) params_b_a (Str (lit "s")) None sample_world
  = getSignature (engine := ascii_engine) params_a_b (Str (lit "s")) None sample_world.
Proof.
  apply (getSignature_insertion_order (engine := ascii_engine) params_b_a params_a_b).
  - unfold own_keys_unique. vm_compute.
    repeat (constructor; [simpl; intuition discriminate|]). constructor.
  - apply perm_swap.
Defined.

(** C8.  The signer's outcome is the same in every world (no clock, no random
    source, nothing of earlier calls enters it) and it leaves the world as it
    found it. *)
Theorem getSignature_deterministic {engine : Engine} (params : object)
    (secret : value) (method : option js_string) (w w' : world) :
  fst (getSignature params secret method w) = fst (getSignature params secret method w')
  /\ snd (getSignature params secret method w) = w.
Proof.
  revert w w'. unfold getSignature.
  apply silent_bind.
  - apply silent_mapM. intros key.
    apply silent_bind; [apply silent_escaper|]. intros k.
    apply silent_bind; [apply silent_escaper|]. intros v. apply silent_ret.
  - intros pairs.
    apply silent_bind; [apply silent_escaper|]. intros slash.
    apply silent_bind; [apply silent_escaper|]. intros query. apply silent_ret.
Qed.

(** ** The request assembler *)

Lemma ToBoolean_js_and (a b : value) :
  ToBoolean (js_and a b) = ToBoolean a && ToBoolean b.
Proof. unfold js_and. destruct (ToBoolean a) eqn:E; simpl; [reflexivity | exact E]. Qed.

Lemma set_fresh (o : object) (k : js_string) (v : value) :
  str_eqb k (lit "__proto__") = false ->
  has_own o k = false -> set o k v = o ++ [(k, v)].
Proof.
  intros Hk. rewrite (set_ordinary _ _ _ Hk).
  unfold has_own. induction o as [|[k0 v0] o IH]; simpl; [reflexivity|].
  destruct (str_eqb k0 k); [discriminate|]. intros H. now rewrite IH.
Qed.

Lemma lookup_Object_assign2 (t s1 s2 : object) (k : js_string) :
  has_own t (lit "__proto__") = false ->
  lookup (Object_assign t [s1; s2]) k
  = if str_eqb k (lit "__proto__") then None
    else match lookup s2 k with
         | Some v => Some v
         | None => match lookup s1 k with Some v => Some v | None => lookup t k end
         end.
Proof.
  intros Ht. unfold Object_assign. simpl. rewrite lookup_assign1.
  unfold has_own at 1. rewrite !lookup_assign1.
  destruct (str_eqb_spec k (lit "__proto__")) as [->|Hne]; cbn [negb orb].
  - rewrite Ht. unfold has_own in Ht.
    destruct (lookup t (lit "__proto__")); [discriminate|].
    destruct (lookup s1 (lit "__proto__")), (lookup s2 (lit "__proto__"));
      reflexivity.
  - destruct (lookup s2 k); reflexivity.
Qed.

Ltac split_on_key k :=
  repeat match goal with
  | |- context [str_eqb ?a k] =>
      destruct (str_eqb_spec a k) as [<-|?]; [reflexivity|]
  end.

(** The assembled object holds what the four layers hold, merged in the
    order defaults, generated values, credentials, options, for every key
    but "__proto__", which it never holds. *)
Lemma lookup_assembled (config opts : object) (w : world) (k : js_string) :
  lookup (assembled_params config opts w) k
  = if str_eqb k (lit "__proto__") then None
    else merged [DEFAULTS; generated_layer w; credential_layer config; opts] k.
Proof.
  unfold assembled_params. rewrite lookup_Object_assign2 by reflexivity.
  destruct (str_eqb k (lit "__proto__")); [reflexivity|].
  cbn [merged]. destruct (lookup opts k); [reflexivity|].
  change DEFAULTS with
    [ (lit "Action", Str (lit "AuthenticateSig"));
      (lit "Format", Str (lit "JSON"));
      (lit "RegionId", Str (lit "cn-hangzhou"));
      (lit "SignatureMethod", Str (lit "HMAC-SHA1"));
      (lit "SignatureVersion", Str (lit "1.0"));
      (lit "Version", Str (lit "2018-01-12")) ].
  change (literal
       [ (lit "AccessKeyId", get config (lit "AccessKeyId"));
         (lit "AppKey", get config (lit "AppKey"));
         (lit "SignatureNonce", Str (nonce w));
         (lit "Timestamp", Str (clock w)) ])
    with
       [ (lit "AccessKeyId", get config (lit "AccessKeyId"));
         (lit "AppKey", get config (lit "AppKey"));
         (lit "SignatureNonce", Str (nonce w));
         (lit "Timestamp", Str (clock w)) ].
  unfold generated_layer, credential_layer. cbn [lookup].
  split_on_key k. reflexivity.
Qed.

Lemma lookup_assembled_other (config opts : object) (w : world) (k : js_string) :
  str_eqb k (lit "__proto__") = false ->
  lookup (assembled_params config opts w) k
  = merged [DEFAULTS; generated_layer w; credential_layer config; opts] k.
Proof. intros H. now rewrite lookup_assembled, H. Qed.

Section AssemblerFacts.

Context {engine : Engine}.

(** The call, run. *)
Lemma verify_run (config : object) (opts : option object) (w : world) :
  verify config opts w
  = let o := default_param [] opts in
    let secret := get config (lit "AccessKeySecret") in
    if negb (ToBoolean secret)
    then (Threw (TypeError (lit "missing config")), w)
    else if negb (required_present o)
    then (Threw (TypeError (lit "missing param")), w)
    else
      match fst (getSignature (assembled_params config o w) secret
                   (Some (lit "GET")) w) with
      | Returned sig =>
          (Returned (ResponseOf (length (wire w))),
           sent (drawn w)
             (request_for (set (assembled_params config o w)
                               (lit "Signature") (Str sig))))
      | Threw e => (Threw e, drawn w)
      end.
Proof.
  unfold verify, comma, required_present. cbv zeta.
  destruct (ToBoolean (get config (lit "AccessKeySecret"))); [|reflexivity].
  rewrite !ToBoolean_js_and.
  destruct (ToBoolean (get (default_param [] opts) (lit "Token"))
            && ToBoolean (get (default_param [] opts) (lit "SessionId"))
            && ToBoolean (get (default_param [] opts) (lit "Sig"))
            && ToBoolean (get (default_param [] opts) (lit "RemoteIp")));
    [|reflexivity].
  cbn [negb]. unfold bind, uuid_v4, Date_toISOString.
  fold (drawn w). fold (nonce w).
  fold (assembled_params config (default_param [] opts) w).
  rewrite (silent_run _ w (drawn w) (silent_getSignature _ _ _)).
  destruct (fst (getSignature _ _ _ w)); reflexivity.
Qed.

(** What a call that returns has done. *)
Lemma verify_returned (config : object) (opts : option object) (w w' : world)
    (p : promise) :
  verify config opts w = (Returned p, w') ->
  let o := default_param [] opts in
  let secret := get config (lit "AccessKeySecret") in
  ToBoolean secret = true
  /\ required_present o = true
  /\ exists sig,
       (forall w1, getSignature (assembled_params config o w) secret
                     (Some (lit "GET")) w1 = (Returned sig, w1))
       /\ w' = sent (drawn w)
                 (request_for (set (assembled_params config o w)
                                   (lit "Signature") (Str sig)))
       /\ p = ResponseOf (length (wire w)).
Proof.
  rewrite verify_run. cbv zeta.
  destruct (ToBoolean (get config (lit "AccessKeySecret"))); [|discriminate].
  destruct (required_present (default_param [] opts)); [|discriminate].
  cbn [negb].
  destruct (fst (getSignature _ _ _ w)) as [sig|e] eqn:E; [|discriminate].
  intros H. inversion H; subst. repeat split.
  exists sig. repeat split.
  intros w1. rewrite (silent_run _ w w1 (silent_getSignature _ _ _)).
  now rewrite E.
Qed.

End AssemblerFacts.

(** C3 (amended).  When the caller's options have no key "Signature", a call
    that returns has sent exactly the object it signed plus, appended last,
    the field Signature: the Signature sent is the signature of the sent
    parameters without the Signature field. *)
Theorem signature_over_sent_params {engine : Engine} (config : object)
    (opts : option object) (w w' : world) (p : promise) :
  verify config opts w = (Returned p, w') ->
  has_own (default_param [] opts) (lit "Signature") = false ->
  exists req sig,
    wire w' = wire w ++ [req]
    /\ qs req = remove (qs req) (lit "Signature") ++ [(lit "Signature", Str sig)]
    /\ has_own (remove (qs req) (lit "Signature")) (lit "Signature") = false
    /\ (forall w1, getSignature (remove (qs req) (lit "Signature"))
                     (get config (lit "AccessKeySecret")) (Some (lit "GET")) w1
                   = (Returned sig, w1)).
Proof.
  intros H Hno. apply verify_returned in H. cbv zeta in H.
  destruct H as (_ & _ & sig & Hsig & -> & _).
  assert (Hfresh : has_own (assembled_params config (default_param [] opts) w)
                           (lit "Signature") = false).
  { unfold has_own in *. rewrite lookup_assembled_other by reflexivity.
    cbn [merged].
    destruct (lookup (default_param [] opts) (lit "Signature")); [discriminate|].
    reflexivity. }
  eexists. exists sig. split; [reflexivity|].
  cbn [qs request_for]. rewrite (remove_set_fresh _ (lit "Signature") _ eq_refl Hfresh).
  split; [apply set_fresh; [reflexivity | exact Hfresh]|].
  split; [exact Hfresh | exact Hsig].
Qed.

Lemma signature_over_sent_params_witness :
  exists req sig,
    wire (snd (verify (engine := ascii_engine) sample_config
                 (Some sample_opts) sample_world))
    = wire sample_world ++ [req]
    /\ qs req = remove (qs req) (lit "Signature") ++ [(lit "Signature", Str sig)]
    /\ has_own (remove (qs req) (lit "Signature")) (lit "Signature") = false
    /\ (forall w1, getSignature (engine := ascii_engine)
                     (remove (qs req) (lit "Signature"))
                     (get sample_config (lit "AccessKeySecret"))
                     (Some (lit "GET")) w1
                   = (Returned sig, w1)).
Proof.
  apply (signature_over_sent_params (engine := ascii_engine) sample_config
           (Some sample_opts) sample_world
           (snd (verify (engine := ascii_engine) sample_config
                   (Some sample_opts) sample_world))
           (ResponseOf 0)).
  - vm_compute. reflexivity.
  - vm_compute. reflexivity.
Defined.

(** C3 as stated fails: options that carry a Signature of their own have it
    signed with the rest, so the Signature sent is not the signature of the
    other parameters sent; it is the signature of those plus the caller's
    Signature field. *)
Lemma caller_Signature_is_signed :
  exists req sig,
    wire (snd (verify (engine := ascii_engine) sample_config
                 (Some opts_with_Signature) sample_world)) = [req]
    /\ get (qs req) (lit "Signature") = Str sig
    /\ fst (getSignature (engine := ascii_engine)
              (remove (qs req) (lit "Signature"))
              (get sample_config (lit "AccessKeySecret"))
              (Some (lit "GET")) sample_world)
       <> Returned sig
    /\ fst (getSignature (engine := ascii_engine)
              (set (remove (qs req) (lit "Signature")) (lit "Signature")
                   (Str (lit "x")))
              (get sample_config (lit "AccessKeySecret"))
              (Some (lit "GET")) sample_world)
       = Returned sig.
Proof.
  remember (wire (snd (verify (engine := ascii_engine) sample_config
                         (Some opts_with_Signature) sample_world))) as l eqn:E.
  vm_compute in E. subst l.
  eexists. eexists. split; [reflexivity|].
  split; [vm_compute; reflexivity|].
  split; vm_compute; [discriminate | reflexivity].
Qed.

(** C4 (amended).  Construction never fails: for every configuration the
    export returns the checking function and changes nothing.  When
    AccessKeySecret is missing or empty, every call of that function throws
    TypeError("missing config"), whatever the options, and leaves the world
    untouched: no identifier is drawn, nothing is signed, nothing is sent. *)
Theorem missing_secret_rejected_at_call {engine : Engine} (config : option object)
    (w : world) :
  exists verifier,
    module_exports config w = (Returned verifier, w)
    /\ (ToBoolean (get (default_param [] config) (lit "AccessKeySecret")) = false ->
        forall opts w1,
          verifier opts w1 = (Threw (TypeError (lit "missing config")), w1)).
Proof.
  exists (verify (default_param [] config)).
  split; [reflexivity|]. intros H opts w1.
  rewrite verify_run. cbv zeta. now rewrite H.
Qed.

Lemma missing_secret_rejected_at_call_witness :
  exists verifier,
    module_exports (engine := ascii_engine) None sample_world
    = (Returned verifier, sample_world)
    /\ forall opts w1,
         verifier opts w1 = (Threw (TypeError (lit "missing config")), w1).
Proof.
  destruct (missing_secret_rejected_at_call (engine := ascii_engine) None
              sample_world) as [verifier [Hc Hv]].
  exists verifier. split; [exact Hc | apply Hv; reflexivity].
Defined.

(** C4 as stated fails: with every credential missing, construction returns
    normally; no error is raised before a call is made. *)
Lemma construction_never_fails :
  is_returned (fst (module_exports (engine := ascii_engine) (Some []) sample_world))
  = true.
Proof. reflexivity. Qed.

(** The comma expression hands [!] its last operand only: a configuration
    without AccessKeyId and AppKey passes the check, and the request goes out
    with both undefined. *)
Lemma comma_checks_secret_only :
  exists req,
    verify (engine := ascii_engine) secret_only_config (Some sample_opts) sample_world
    = (Returned (ResponseOf 0), sent (drawn sample_world) req)
    /\ lookup (qs req) (lit "AccessKeyId") = Some Undefined
    /\ lookup (qs req) (lit "AppKey") = Some Undefined.
Proof.
  eexists. split; [vm_compute; reflexivity|]. split; reflexivity.
Qed.

(** C5 (amended).  When one of Token, SessionId, Sig, RemoteIp is missing or
    empty, the call throws a TypeError and leaves the world untouched: no
    identifier is drawn, nothing is signed, nothing is sent.  The error is
    TypeError("missing param") when AccessKeySecret is present and non-empty,
    and TypeError("missing config"), raised by the earlier check, when it is
    not. *)
Theorem missing_param_rejected {engine : Engine} (config : object)
    (opts : option object) (w : world) :
  ToBoolean (get (default_param [] opts) (lit "Token")) = false
  \/ ToBoolean (get (default_param [] opts) (lit "SessionId")) = false
  \/ ToBoolean (get (default_param [] opts) (lit "Sig")) = false
  \/ ToBoolean (get (default_param [] opts) (lit "RemoteIp")) = false ->
  verify config opts w
  = (Threw (TypeError (if ToBoolean (get config (lit "AccessKeySecret"))
                       then lit "missing param"
                       else lit "missing config")), w).
Proof.
  intros Hm. rewrite verify_run. cbv zeta.
  destruct (ToBoolean (get config (lit "AccessKeySecret"))); [|reflexivity].
  cbn [negb].
  assert (Hreq : required_present (default_param [] opts) = false).
  { unfold required_present.
    destruct Hm as [H|[H|[H|H]]]; rewrite H;
      rewrite ?andb_false_r, ?andb_false_l; reflexivity. }
  now rewrite Hreq.
Qed.

Lemma missing_param_rejected_witness :
  verify (engine := ascii_engine) sample_config
    (Some (set sample_opts (lit "Sig") (Str []))) sample_world
  = (Threw (TypeError (lit "missing param")), sample_world).
Proof.
  apply (missing_param_rejected (engine := ascii_engine) sample_config
           (Some (set sample_opts (lit "Sig") (Str []))) sample_world).
  right. right. left. reflexivity.
Defined.

(** C5 as stated fails: without a secret in the configuration, a call with
    every required field missing throws the configuration error, not the
    parameter error. *)
Lemma missing_param_masked_by_config :
  fst (verify (engine := ascii_engine) [] None sample_world)
  = Threw (TypeError (lit "missing config"))
  /\ fst (verify (engine := ascii_engine) [] None sample_world)
     <> Threw (TypeError (lit "missing param")).
Proof. split; [reflexivity | vm_compute; discriminate]. Qed.

(** C6 (amended).  A call that returns has signed, and sent with the
    signature added, an object that holds, for every key other than
    "__proto__", what the four layers hold when merged in the order fixed
    defaults, generated values (nonce, timestamp), credential fields,
    caller's options, a later layer's value standing on a key collision; so
    whatever the options hold under such a key is what the object holds.  The
    object never holds the key "__proto__": [Object.assign] does not copy an
    own property of that name. *)
Theorem params_merged_in_layers {engine : Engine} (config : object)
    (opts : option object) (w w' : world) (p : promise) :
  verify config opts w = (Returned p, w') ->
  exists params sig req,
    (forall w1, getSignature params (get config (lit "AccessKeySecret"))
                  (Some (lit "GET")) w1 = (Returned sig, w1))
    /\ wire w' = wire w ++ [req]
    /\ qs req = set params (lit "Signature") (Str sig)
    /\ (forall k, k <> lit "__proto__" ->
                  lookup params k
                  = merged [DEFAULTS; generated_layer w; credential_layer config;
                            default_param [] opts] k)
    /\ (forall k v, k <> lit "__proto__" ->
                    lookup (default_param [] opts) k = Some v ->
                    lookup params k = Some v)
    /\ lookup params (lit "__proto__") = None.
Proof.
  intros H. apply verify_returned in H. cbv zeta in H.
  destruct H as (_ & _ & sig & Hsig & -> & _).
  exists (assembled_params config (default_param [] opts) w), sig.
  eexists. split; [exact Hsig|]. split; [reflexivity|]. split; [reflexivity|].
  split; [|split].
  - intros k Hk. apply lookup_assembled_other. now apply str_eqb_neq.
  - intros k v Hk Hv. rewrite lookup_assembled_other by now apply str_eqb_neq.
    cbn [merged]. now rewrite Hv.
  - now rewrite lookup_assembled.
Qed.

Lemma params_merged_in_layers_witness :
  exists params sig req,
    (forall w1, getSignature (engine := ascii_engine) params
                  (get sample_config (lit "AccessKeySecret"))
                  (Some (lit "GET")) w1 = (Returned sig, w1))
    /\ wire (snd (verify (engine := ascii_engine) sample_config
                    (Some overriding_opts) sample_world))
       = wire sample_world ++ [req]
    /\ qs req = set params (lit "Signature") (Str sig)
    /\ (forall k, k <> lit "__proto__" ->
                  lookup params k
                  = merged [DEFAULTS; generated_layer sample_world;
                            credential_layer sample_config;
                            default_param [] (Some overriding_opts)] k)
    /\ (forall k v, k <> lit "__proto__" ->
                    lookup (default_param [] (Some overriding_opts)) k = Some v ->
                    lookup params k = Some v)
    /\ lookup params (lit "__proto__") = None.
Proof.
  apply (params_merged_in_layers (engine := ascii_engine) sample_config
           (Some overriding_opts) sample_world
           (snd (verify (engine := ascii_engine) sample_config
                   (Some overriding_opts) sample_world))
           (ResponseOf 0)).
  vm_compute. reflexivity.
Defined.

(** C6 as stated fails: options with an own property "__proto__" (as
    [JSON.parse] makes one) have it in the merge of the four layers, but the
    object the call signs and sends has no such key. *)
Lemma own_proto_not_merged :
  exists req,
    wire (snd (verify (engine := ascii_engine) sample_config
                 (Some opts_with_proto) sample_world)) = [req]
    /\ merged [DEFAULTS; generated_layer sample_world;
               credential_layer sample_config; opts_with_proto] (lit "__proto__")
       = Some (Str (lit "x"))
    /\ lookup (qs req) (lit "__proto__") = None
    /\ lookup (remove (qs req) (lit "Signature")) (lit "__proto__") = None.
Proof.
  remember (wire (snd (verify (engine := ascii_engine) sample_config
                         (Some opts_with_proto) sample_world))) as l eqn:E.
  vm_compute in E. subst l.
  eexists. split; [reflexivity|]. repeat split.
Qed.

(** C9.  A call that returns has put exactly one request on the wire: a GET
    of https://afs.aliyuncs.com with a timeout of 5000 ms and JSON decoding,
    whose query holds each fixed default (Action=AuthenticateSig, Format=JSON,
    RegionId=cn-hangzhou, SignatureMethod=HMAC-SHA1, SignatureVersion=1.0,
    Version=2018-01-12) unless the caller's options have that key, and then
    holds the options' value. *)
Theorem one_get_with_defaults {engine : Engine} (config : object)
    (opts : option object) (w w' : world) (p : promise) :
  verify config opts w = (Returned p, w') ->
  exists req,
    wire w' = wire w ++ [req]
    /\ url req = lit "https://afs.aliyuncs.com"
    /\ timeout req = 5000
    /\ json req = true
    /\ (forall k v,
          In (k, v)
             [ (lit "Action", Str (lit "AuthenticateSig"));
               (lit "Format", Str (lit "JSON"));
               (lit "RegionId", Str (lit "cn-hangzhou"));
               (lit "SignatureMethod", Str (lit "HMAC-SHA1"));
               (lit "SignatureVersion", Str (lit "1.0"));
               (lit "Version", Str (lit "2018-01-12")) ] ->
          lookup (qs req) k
          = match lookup (default_param [] opts) k with
            | Some v' => Some v'
            | None => Some v
            end).
Proof.
  intros H. apply verify_returned in H. cbv zeta in H.
  destruct H as (_ & _ & sig & _ & -> & _).
  eexists. split; [reflexivity|]. repeat (split; [reflexivity|]).
  intros k v Hin. cbn [qs request_for].
  rewrite lookup_set by reflexivity.
  assert (Hk : str_eqb (lit "Signature") k = false
               /\ str_eqb k (lit "__proto__") = false
               /\ lookup DEFAULTS k = Some v).
  { simpl in Hin.
    repeat (destruct Hin as [Heq|Hin];
            [inversion Heq; subst; repeat split; reflexivity|]).
    contradiction. }
  destruct Hk as (Hne & Hnp & Hd).
  rewrite Hne, (lookup_assembled_other _ _ _ _ Hnp). cbn [merged].
  destruct (lookup (default_param [] opts) k); [reflexivity|].
  revert Hd. unfold generated_layer, credential_layer. cbn [lookup].
  simpl in Hin.
  repeat (destruct Hin as [Heq|Hin]; [inversion Heq; subst; reflexivity|]).
  contradiction.
Qed.

Lemma one_get_with_defaults_witness :
  exists req,
    wire (snd (verify (engine := ascii_engine) sample_config
                 (Some overriding_opts) sample_world))
    = wire sample_world ++ [req]
    /\ url req = lit "https://afs.aliyuncs.com"
    /\ timeout req = 5000
    /\ json req = true
    /\ (forall k v,
          In (k, v)
             [ (lit "Action", Str (lit "AuthenticateSig"));
               (lit "Format", Str (lit "JSON"));
               (lit "RegionId", Str (lit "cn-hangzhou"));
               (lit "SignatureMethod", Str (lit "HMAC-SHA1"));
               (lit "SignatureVersion", Str (lit "1.0"));
               (lit "Version", Str (lit "2018-01-12")) ] ->
          lookup (qs req) k
          = match lookup (default_param [] (Some overriding_opts)) k with
            | Some v' => Some v'
            | None => Some v
            end).
Proof.
  apply (one_get_with_defaults (engine := ascii_engine) sample_config
           (Some overriding_opts) sample_world
           (snd (verify (engine := ascii_engine) sample_config
                   (Some overriding_opts) sample_world))
           (ResponseOf 0)).
  vm_compute. reflexivity.
Defined.

(** C10.  When the caller's options have one of the keys SignatureNonce,
    Timestamp, AccessKeyId, AppKey, a call that returns has signed, and sent,
    the options' value for that key, in place of the generated or
    credential value. *)
Theorem caller_overrides_generated {engine : Engine} (config : object)
    (opts : option object) (w w' : world) (p : promise) (k : js_string) (v : value) :
  verify config opts w = (Returned p, w') ->
  In k [lit "SignatureNonce"; lit "Timestamp"; lit "AccessKeyId"; lit "AppKey"] ->
  lookup (default_param [] opts) k = Some v ->
  exists params sig req,
    (forall w1, getSignature params (get config (lit "AccessKeySecret"))
                  (Some (lit "GET")) w1 = (Returned sig, w1))
    /\ wire w' = wire w ++ [req]
    /\ qs req = set params (lit "Signature") (Str sig)
    /\ lookup params k = Some v
    /\ lookup (qs req) k = Some v.
Proof.
  intros H Hin Hk. apply verify_returned in H. cbv zeta in H.
  destruct H as (_ & _ & sig & Hsig & -> & _).
  exists (assembled_params config (default_param [] opts) w), sig.
  eexists. split; [exact Hsig|]. split; [reflexivity|]. split; [reflexivity|].
  assert (Hne : str_eqb (lit "Signature") k = false
                /\ str_eqb k (lit "__proto__") = false).
  { simpl in Hin.
    repeat (destruct Hin as [<-|Hin]; [split; reflexivity|]). contradiction. }
  destruct Hne as [Hne Hnp].
  assert (Hp : lookup (assembled_params config (default_param [] opts) w) k = Some v)
    by (rewrite (lookup_assembled_other _ _ _ _ Hnp); cbn [merged]; now rewrite Hk).
  split; [exact Hp|].
  cbn [qs request_for]. rewrite lookup_set by reflexivity.
  now rewrite Hne.
Qed.

Lemma caller_overrides_generated_witness :
  exists params sig req,
    (forall w1, getSignature (engine := ascii_engine) params
                  (get sample_config (lit "AccessKeySecret"))
                  (Some (lit "GET")) w1 = (Returned sig, w1))
    /\ wire (snd (verify (engine := ascii_engine) sample_config
                    (Some overriding_opts) sample_world))
       = wire sample_world ++ [req]
    /\ qs req = set params (lit "Signature") (Str sig)
    /\ lookup params (lit "SignatureNonce") = Some (Str (lit "fixed"))
    /\ lookup (qs req) (lit "SignatureNonce") = Some (Str (lit "fixed")).
Proof.
  apply (caller_overrides_generated (engine := ascii_engine) sample_config
           (Some overriding_opts) sample_world
           (snd (verify (engine := ascii_engine) sample_config
                   (Some overriding_opts) sample_world))
           (ResponseOf 0) (lit "SignatureNonce") (Str (lit "fixed"))).
  - vm_compute. reflexivity.
  - left. reflexivity.
  - vm_compute. reflexivity.
Defined.

(** * Further properties of the module *)

(** ** Objects keep their keys distinct *)

Lemma in_keys_define (o : object) (k : js_string) (v : value) (x : js_string) :
  In x (map fst (define o k v)) <-> In x (map fst o) \/ x = k.
Proof.
  induction o as [|[k0 v0] o IH]; simpl.
  - split; [intros [H|[]]; right; now symmetry | intros [[]|H]; left; now symmetry].
  - destruct (str_eqb_spec k0 k) as [->|Hne]; simpl.
    + split; [tauto|]. intros [H|H]; [assumption | left; now symmetry].
    + rewrite IH. tauto.
Qed.

Lemma define_keeps_keys_unique (o : object) (k : js_string) (v : value) :
  own_keys_unique o -> own_keys_unique (define o k v).
Proof.
  unfold own_keys_unique. induction o as [|[k0 v0] o IH]; simpl; intros Hnd.
  - repeat constructor. tauto.
  - inversion Hnd as [|? ? Hnotin Hnd']; subst.
    destruct (str_eqb_spec k0 k) as [->|Hne]; simpl.
    + now constructor.
    + constructor; [|now apply IH].
      rewrite in_keys_define. intros [H|H]; [contradiction | congruence].
Qed.

Lemma set_keeps_keys_unique (o : object) (k : js_string) (v : value) :
  own_keys_unique o -> own_keys_unique (set o k v).
Proof.
  intros H. unfold set.
  destruct (str_eqb k (lit "__proto__") && negb (has_own o k));
    [exact H | now apply define_keeps_keys_unique].
Qed.

Lemma assign1_keeps_keys_unique (t s : object) :
  own_keys_unique t -> own_keys_unique (assign1 t s).
Proof.
  unfold assign1. generalize (Object_keys s) as l. intros l. revert t.
  induction l as [|k l IH]; intros t Ht; simpl; [exact Ht|].
  apply IH. now apply set_keeps_keys_unique.
Qed.

Lemma Object_assign_keeps_keys_unique (t : object) (sources : list object) :
  own_keys_unique t -> own_keys_unique (Object_assign t sources).
Proof.
  unfold Object_assign. revert t.
  induction sources as [|s l IH]; intros t Ht; simpl; [exact Ht|].
  apply IH. now apply assign1_keeps_keys_unique.
Qed.

Lemma literal_keys_unique (entries : list (js_string * value)) :
  own_keys_unique (literal entries).
Proof.
  unfold literal.
  assert (H : forall o, own_keys_unique o ->
                own_keys_unique (fold_left (fun o kv => define o (fst kv) (snd kv)) entries o)).
  { induction entries as [|kv l IH]; intros o Ho; simpl; [exact Ho|].
    apply IH. now apply define_keeps_keys_unique. }
  apply H. constructor.
Qed.

Lemma assembled_keys_unique (config opts : object) (w : world) :
  own_keys_unique (assembled_params config opts w).
Proof.
  unfold assembled_params. apply Object_assign_keeps_keys_unique, literal_keys_unique.
Qed.

(** ** What the entries of an assigned object are *)

Lemma in_define (o : object) (k : js_string) (v : value) (e : js_string * value) :
  In e (define o k v) -> In e o \/ e = (k, v).
Proof.
  induction o as [|[k0 v0] o IH]; simpl.
  - intros [H|[]]. right. now symmetry.
  - destruct (str_eqb_spec k0 k) as [->|Hne]; simpl.
    + intros [H|H]; [right; now symmetry | left; now right].
    + intros [H|H]; [left; now left|]. apply IH in H. tauto.
Qed.

Lemma Forall_define (P : js_string * value -> Prop) (o : object) (k : js_string)
    (v : value) :
  Forall P o -> P (k, v) -> Forall P (define o k v).
Proof.
  intros Ho Hkv. apply Forall_forall. intros e He.
  apply in_define in He. destruct He as [He| ->]; [|exact Hkv].
  rewrite Forall_forall in Ho. now apply Ho.
Qed.

Lemma Forall_set (P : js_string * value -> Prop) (o : object) (k : js_string) (v : value) :
  Forall P o -> P (k, v) -> Forall P (set o k v).
Proof.
  intros Ho Hkv. unfold set.
  destruct (str_eqb k (lit "__proto__") && negb (has_own o k));
    [exact Ho | now apply Forall_define].
Qed.

Lemma in_get_of_key (s : object) (k : js_string) :
  In k (map fst s) -> In (k, get s k) s.
Proof.
  intros Hin. apply has_own_iff in Hin. unfold has_own, get in *.
  destruct (lookup s k) eqn:E; [|discriminate]. now apply lookup_In.
Qed.

Lemma Forall_assign1 (P : js_string * value -> Prop) (t s : object) :
  Forall P t -> Forall P s -> Forall P (assign1 t s).
Proof.
  intros Ht Hs. unfold assign1.
  assert (Hk : Forall (fun k => P (k, get s k)) (Object_keys s)).
  { apply Forall_forall. intros k Hk. apply In_Object_keys in Hk.
    rewrite Forall_forall in Hs. apply Hs. now apply in_get_of_key. }
  revert t Ht. induction Hk as [|k l Hk _ IH]; intros t Ht; simpl; [exact Ht|].
  apply IH. now apply Forall_set.
Qed.

Section Outcomes.

Context {engine : Engine}.

(** The signer's outcome on an object. *)
Lemma getSignature_outcome (params : object) (secret : value)
    (method : option js_string) (w : world) :
  own_keys_unique params ->
  getSignature params secret method w
  = (if params_well_formed params
     then Returned (signature_formula str_leb params secret
                      (default_param (lit "GET") method))
     else Threw URIError, w).
Proof.
  intros Hnd. unfold getSignature. unfold bind at 1.
  rewrite (mapM_run _
             (fun key => is_well_formed key
                         && is_well_formed (ToString (get params key)))
             (fun key => entry_text (key, get params key)) URIError)
    by (intros a w'; apply pair_run).
  rewrite sorted_keys_of_entries.
  assert (Hincl : incl (entries_sorted_by_key str_leb params) params).
  { intros x Hx. eapply Permutation_in; [apply isort_perm | exact Hx]. }
  destruct (entries_agree params _ Hnd Hincl) as [Hok Htxt].
  rewrite Hok, Htxt.
  unfold entries_sorted_by_key at 1.
  rewrite (forallb_perm _ _ params) by apply isort_perm.
  fold (params_well_formed params).
  destruct (params_well_formed params); [|reflexivity].
  fold (canonical_query str_leb params).
  unfold bind. rewrite !escaper_run. simpl ToString.
  rewrite (plain_well_formed _ (plain_canonical_query str_leb params)).
  change (is_well_formed (lit "/")) with true. cbv iota.
  reflexivity.
Qed.

(** The call, with the signer's outcome spelled out. *)
Lemma verify_table (config : object) (opts : option object) (w : world) :
  verify config opts w
  = let o := default_param [] opts in
    let secret := get config (lit "AccessKeySecret") in
    let params := assembled_params config o w in
    if negb (ToBoolean secret)
    then (Threw (TypeError (lit "missing config")), w)
    else if negb (required_present o)
    then (Threw (TypeError (lit "missing param")), w)
    else if params_well_formed params
    then (Returned (ResponseOf (length (wire w))),
          sent (drawn w)
            (request_for
               (set params (lit "Signature")
                  (Str (signature_formula str_leb params secret (lit "GET"))))))
    else (Threw URIError, drawn w).
Proof.
  rewrite verify_run. cbv zeta.
  rewrite (getSignature_outcome _ _ _ _ (assembled_keys_unique _ _ _)).
  cbn [fst default_param].
  destruct (params_well_formed _); reflexivity.
Qed.

End Outcomes.

(** ** The call: effects and outcomes *)

(** X1.  Whatever the arguments, a call leaves the identifier source and the
    clock as they are and does one of three things: it throws a TypeError
    and changes nothing; it draws one identifier, throws URIError and sends
    nothing; or it draws one identifier, sends exactly one request and
    returns the promise of its response. *)
Theorem call_effects {engine : Engine} (config : object) (opts : option object)
    (w : world) :
  let w' := snd (verify config opts w) in
  uuid_source w' = uuid_source w
  /\ clock w' = clock w
  /\ match fst (verify config opts w) with
     | Returned p =>
         p = ResponseOf (length (wire w))
         /\ uuid_drawn w' = S (uuid_drawn w)
         /\ exists req, wire w' = wire w ++ [req]
     | Threw URIError => uuid_drawn w' = S (uuid_drawn w) /\ wire w' = wire w
     | Threw (TypeError _) => w' = w
     end.
Proof.
  cbv zeta. rewrite verify_table. cbv zeta.
  destruct (ToBoolean (get config (lit "AccessKeySecret"))); cbn [negb];
    [|repeat split].
  destruct (required_present (default_param [] opts)); cbn [negb];
    [|repeat split].
  destruct (params_well_formed _); cbn [fst snd]; repeat split.
  eexists. reflexivity.
Qed.

Lemma well_formed_without (c : Z) (s : js_string) :
  is_leading_surrogate c = false -> is_trailing_surrogate c = false ->
  is_well_formed s = true -> is_well_formed (replace_all c [] s) = true.
Proof.
  intros Hl Ht.
  assert (H : forall n s, (length s <= n)%nat -> is_well_formed s = true ->
                is_well_formed (replace_all c [] s) = true).
  { induction n as [|n IH]; intros [|x r] Hlen Hwf; simpl in *;
      try reflexivity; try lia.
    destruct (Z.eqb_spec x c) as [->|Hne].
    - rewrite Hl, Ht in Hwf. simpl in *. apply IH; [lia | exact Hwf].
    - simpl. destruct (is_leading_surrogate x) eqn:Hx.
      + destruct r as [|d r']; [discriminate|]. simpl.
        apply andb_true_iff in Hwf. destruct Hwf as [Hd Hwf].
        destruct (Z.eqb_spec d c) as [->|Hdc]; [congruence|].
        simpl. rewrite Hd. simpl. apply IH; [simpl in Hlen; lia | exact Hwf].
      + apply andb_true_iff in Hwf. destruct Hwf as [Hx' Hwf].
        rewrite Hx'. simpl. apply IH; [lia | exact Hwf]. }
  apply (H (length s)). lia.
Qed.

Lemma dash_not_surrogate :
  is_leading_surrogate dash = false /\ is_trailing_surrogate dash = false.
Proof. split; reflexivity. Qed.

Lemma assembled_well_formed (config opts : object) (w : world) :
  Forall (fun kv => entry_well_formed kv = true) opts ->
  is_well_formed (ToString (get config (lit "AccessKeyId"))) = true ->
  is_well_formed (ToString (get config (lit "AppKey"))) = true ->
  is_well_formed (uuid_source w (uuid_drawn w)) = true ->
  is_well_formed (clock w) = true ->
  params_well_formed (assembled_params config opts w) = true.
Proof.
  intros Ho Hid Hkey Hu Hc.
  unfold params_well_formed. apply forallb_forall. apply Forall_forall.
  unfold assembled_params, Object_assign. cbn [fold_left].
  apply (Forall_assign1 (fun kv => entry_well_formed kv = true)); [|exact Ho].
  apply (Forall_assign1 (fun kv => entry_well_formed kv = true)).
  - unfold literal. cbn [fold_left fst snd].
    repeat apply Forall_define; try constructor; unfold entry_well_formed;
      cbn [fst snd ToString]; apply andb_true_iff; split;
        try reflexivity; try assumption.
    apply well_formed_without; try assumption; apply dash_not_surrogate.
  - repeat constructor.
Qed.

(** X2.  When AccessKeySecret is present and non-empty, the four required
    fields are present and non-empty, and no text involved (the keys and
    values of the options, AccessKeyId, AppKey, the identifier drawn, the
    timestamp) has an unpaired surrogate, the call does not throw: it returns
    and sends its request. *)
Theorem call_returns {engine : Engine} (config : object) (opts : option object)
    (w : world) :
  ToBoolean (get config (lit "AccessKeySecret")) = true ->
  required_present (default_param [] opts) = true ->
  Forall (fun kv => entry_well_formed kv = true) (default_param [] opts) ->
  is_well_formed (ToString (get config (lit "AccessKeyId"))) = true ->
  is_well_formed (ToString (get config (lit "AppKey"))) = true ->
  is_well_formed (uuid_source w (uuid_drawn w)) = true ->
  is_well_formed (clock w) = true ->
  exists req,
    verify config opts w
    = (Returned (ResponseOf (length (wire w))), sent (drawn w) req).
Proof.
  intros Hs Hr Ho Hid Hkey Hu Hc. rewrite verify_table. cbv zeta.
  rewrite Hs, Hr. cbn [negb].
  rewrite (assembled_well_formed _ _ _ Ho Hid Hkey Hu Hc).
  eexists. reflexivity.
Qed.

Lemma call_returns_witness :
  exists req,
    verify (engine := ascii_engine) sample_config (Some sample_opts) sample_world
    = (Returned (ResponseOf (length (wire sample_world))),
       sent (drawn sample_world) req).
Proof.
  apply (call_returns (engine := ascii_engine) sample_config (Some sample_opts)
           sample_world); try reflexivity.
  repeat constructor.
Defined.

(** X3.  When the checks pass but the options have an entry, under a key
    other than "__proto__", whose key or value has an unpaired surrogate, the
    call throws URIError from the signer: by then it has drawn an identifier,
    and it sends nothing.  (An own "__proto__" entry is not copied into the
    parameters, so its value plays no part.) *)
Theorem ill_formed_option_throws {engine : Engine} (config : object)
    (opts : option object) (w : world) (k : js_string) (v : value) :
  ToBoolean (get config (lit "AccessKeySecret")) = true ->
  required_present (default_param [] opts) = true ->
  own_keys_unique (default_param [] opts) ->
  In (k, v) (default_param [] opts) ->
  k <> lit "__proto__" ->
  entry_well_formed (k, v) = false ->
  verify config opts w = (Threw URIError, drawn w).
Proof.
  intros Hs Hr Hnd Hin Hk Hbad. rewrite verify_table. cbv zeta.
  rewrite Hs, Hr. cbn [negb].
  assert (Hp : In (k, v) (assembled_params config (default_param [] opts) w)).
  { apply lookup_In. rewrite lookup_assembled_other by now apply str_eqb_neq.
    cbn [merged]. now rewrite (lookup_unique _ _ _ Hnd Hin). }
  destruct (params_well_formed _) eqn:E; [|reflexivity].
  unfold params_well_formed in E. rewrite forallb_forall in E.
  apply E in Hp. unfold entry_well_formed in Hbad. congruence.
Qed.

Lemma ill_formed_option_throws_witness :
  verify (engine := ascii_engine) sample_config
    (Some (set sample_opts (lit "Scene") (Str [0xD83D]))) sample_world
  = (Threw URIError, drawn sample_world).
Proof.
  apply (ill_formed_option_throws (engine := ascii_engine) sample_config
           (Some (set sample_opts (lit "Scene") (Str [0xD83D]))) sample_world
           (lit "Scene") (Str [0xD83D])).
  - reflexivity.
  - reflexivity.
  - apply set_keeps_keys_unique, literal_keys_unique.
  - vm_compute. tauto.
  - discriminate.
  - reflexivity.
Defined.

(** An own "__proto__" entry is dropped before signing: even with an
    unpaired surrogate as its value the call returns, and sends the request
    it would send without that entry. *)
Example own_proto_ignored :
  verify (engine := ascii_engine) sample_config
    (Some (sample_opts ++ [ (lit "__proto__", Str [0xD83D]) ])) sample_world
  = verify (engine := ascii_engine) sample_config (Some sample_opts) sample_world.
Proof. vm_compute. reflexivity. Qed.

(** ** What the request holds *)

Lemma str_eqb_eq (a b : js_string) : str_eqb a b = true -> a = b.
Proof. destruct (str_eqb_spec a b); congruence. Qed.

Lemma has_own_set (o : object) (k k' : js_string) (v : value) :
  str_eqb k (lit "__proto__") = false ->
  has_own (set o k v) k' = str_eqb k k' || has_own o k'.
Proof.
  intros H. rewrite has_own_set_gen, H. cbn [negb orb]. now rewrite andb_true_r.
Qed.

Lemma has_own_assembled (config opts : object) (w : world) (k : js_string) :
  has_own (assembled_params config opts w) k
  = existsb (str_eqb k) (removelast written_names)
    || (has_own opts k && negb (str_eqb k (lit "__proto__"))).
Proof.
  unfold has_own. rewrite lookup_assembled.
  destruct (str_eqb_spec k (lit "__proto__")) as [->|Hp]; cbn [negb].
  - rewrite andb_false_r. reflexivity.
  - rewrite andb_true_r. cbn [merged].
    destruct (lookup opts k); [now rewrite orb_true_r|].
    rewrite orb_false_r.
    change DEFAULTS with
      [ (lit "Action", Str (lit "AuthenticateSig"));
        (lit "Format", Str (lit "JSON"));
        (lit "RegionId", Str (lit "cn-hangzhou"));
        (lit "SignatureMethod", Str (lit "HMAC-SHA1"));
        (lit "SignatureVersion", Str (lit "1.0"));
        (lit "Version", Str (lit "2018-01-12")) ].
    unfold generated_layer, credential_layer, written_names.
    cbn [lookup removelast existsb].
    repeat match goal with
    | |- context [str_eqb ?a k] =>
        destruct (str_eqb_spec a k) as [<-|?]; [reflexivity|]
    end.
    repeat match goal with
    | |- context [str_eqb k ?a] => rewrite (str_eqb_neq k a) by congruence
    end.
    reflexivity.
Qed.

(** X4.  The query of the request a call sends has no key twice, and its
    keys are the eleven the assembler writes (AccessKeyId, AppKey,
    SignatureNonce, Timestamp, the six defaults, Signature) and the keys of
    the caller's options other than "__proto__", nothing else.  In particular
    AccessKeySecret is in the query only if the caller put it in the options,
    and then with the caller's value, and "__proto__" is never in it. *)
Theorem sent_keys {engine : Engine} (config : object) (opts : option object)
    (w w' : world) (p : promise) :
  verify config opts w = (Returned p, w') ->
  exists req,
    wire w' = wire w ++ [req]
    /\ own_keys_unique (qs req)
    /\ (forall k, has_own (qs req) k = true
                  <-> In k written_names
                      \/ (has_own (default_param [] opts) k = true
                          /\ k <> lit "__proto__"))
    /\ lookup (qs req) (lit "AccessKeySecret")
       = lookup (default_param [] opts) (lit "AccessKeySecret")
    /\ lookup (qs req) (lit "__proto__") = None.
Proof.
  intros H. apply verify_returned in H. cbv zeta in H.
  destruct H as (_ & _ & sig & _ & -> & _).
  eexists. split; [reflexivity|]. cbn [qs request_for].
  split; [apply set_keeps_keys_unique, assembled_keys_unique|].
  split; [|split].
  - intros k. rewrite has_own_set by reflexivity. rewrite has_own_assembled.
    rewrite !orb_true_iff, andb_true_iff, negb_true_iff, existsb_exists.
    unfold written_names. cbn [removelast]. split.
    + intros [Hs|[[x [Hin Hx]]|[Ho Hp]]].
      * apply str_eqb_eq in Hs. subst k. left. simpl. tauto.
      * apply str_eqb_eq in Hx. subst x. left. simpl in *. tauto.
      * right. split; [exact Ho|]. intros ->. now rewrite str_eqb_refl in Hp.
    + intros [Hin|[Ho Hp]].
      * destruct (str_eqb_spec (lit "Signature") k) as [|Hne]; [now left|].
        right. left. exists k. split; [|apply str_eqb_refl].
        simpl in *.
        repeat (destruct Hin as [Heq|Hin]; [tauto|]).
        destruct Hin.
      * right. right. split; [exact Ho | now apply str_eqb_neq].
  - rewrite lookup_set by reflexivity. cbn [str_eqb lit].
    rewrite lookup_assembled_other by reflexivity.
    cbn [merged]. destruct (lookup _ (lit "AccessKeySecret")); reflexivity.
  - rewrite lookup_set by reflexivity. cbn [str_eqb lit].
    now rewrite lookup_assembled.
Qed.

Lemma sent_keys_witness :
  exists req,
    wire (snd (verify (engine := ascii_engine) sample_config (Some sample_opts)
                 sample_world))
    = wire sample_world ++ [req]
    /\ own_keys_unique (qs req)
    /\ (forall k, has_own (qs req) k = true
                  <-> In k written_names
                      \/ (has_own (default_param [] (Some sample_opts)) k = true
                          /\ k <> lit "__proto__"))
    /\ lookup (qs req) (lit "AccessKeySecret")
       = lookup (default_param [] (Some sample_opts)) (lit "AccessKeySecret")
    /\ lookup (qs req) (lit "__proto__") = None.
Proof.
  apply (sent_keys (engine := ascii_engine) sample_config (Some sample_opts)
           sample_world
           (snd (verify (engine := ascii_engine) sample_config (Some sample_opts)
                   sample_world))
           (ResponseOf 0)).
  vm_compute. reflexivity.
Defined.

Lemma replace_all_nil_filter (c : Z) (s : js_string) :
  replace_all c [] s = filter (fun x => negb (x =? c)) s.
Proof.
  unfold replace_all. induction s as [|x s IH]; simpl; [reflexivity|].
  destruct (x =? c); simpl; now rewrite IH.
Qed.

(** X5.  Unless the caller's options name them, the SignatureNonce sent is
    the identifier drawn with every dash taken out and nothing else changed,
    so it holds no dash, and the Timestamp sent is the clock's reading. *)
Theorem generated_values_sent {engine : Engine} (config : object)
    (opts : option object) (w w' : world) (p : promise) :
  verify config opts w = (Returned p, w') ->
  exists req,
    wire w' = wire w ++ [req]
    /\ (has_own (default_param [] opts) (lit "SignatureNonce") = false ->
        exists n,
          lookup (qs req) (lit "SignatureNonce") = Some (Str n)
          /\ n = filter (fun c => negb (c =? dash)) (uuid_source w (uuid_drawn w))
          /\ ~ In dash n)
    /\ (has_own (default_param [] opts) (lit "Timestamp") = false ->
        lookup (qs req) (lit "Timestamp") = Some (Str (clock w))).
Proof.
  intros H. apply verify_returned in H. cbv zeta in H.
  destruct H as (_ & _ & sig & _ & -> & _).
  eexists. split; [reflexivity|]. cbn [qs request_for]. split.
  - intros Hno. unfold has_own in Hno.
    exists (filter (fun c => negb (c =? dash)) (uuid_source w (uuid_drawn w))).
    split; [|split; [reflexivity|]].
    + rewrite lookup_set by reflexivity. cbn [str_eqb lit].
      rewrite lookup_assembled_other by reflexivity.
      cbn [merged].
      destruct (lookup _ (lit "SignatureNonce")); [discriminate|].
      unfold generated_layer, nonce. now rewrite replace_all_nil_filter.
    + intros Hin. apply filter_In in Hin. destruct Hin as [_ Hin].
      now rewrite Z.eqb_refl in Hin.
  - intros Hno. unfold has_own in Hno.
    rewrite lookup_set by reflexivity. cbn [str_eqb lit].
      rewrite lookup_assembled_other by reflexivity.
    cbn [merged].
    destruct (lookup _ (lit "Timestamp")); [discriminate | reflexivity].
Qed.

Lemma generated_values_sent_witness :
  exists req,
    wire (snd (verify (engine := ascii_engine) sample_config (Some sample_opts)
                 sample_world))
    = wire sample_world ++ [req]
    /\ (has_own (default_param [] (Some sample_opts)) (lit "SignatureNonce") = false ->
        exists n,
          lookup (qs req) (lit "SignatureNonce") = Some (Str n)
          /\ n = filter (fun c => negb (c =? dash))
                   (uuid_source sample_world (uuid_drawn sample_world))
          /\ ~ In dash n)
    /\ (has_own (default_param [] (Some sample_opts)) (lit "Timestamp") = false ->
        lookup (qs req) (lit "Timestamp") = Some (Str (clock sample_world))).
Proof.
  apply (generated_values_sent (engine := ascii_engine) sample_config
           (Some sample_opts) sample_world
           (snd (verify (engine := ascii_engine) sample_config (Some sample_opts)
                   sample_world))
           (ResponseOf 0)).
  vm_compute. reflexivity.
Defined.

(** X6.  Two calls in a row, with whatever options, send their requests in
    that order, and the second takes from the source the identifier after
    the one the first took: unless the options name a SignatureNonce, the
    two nonces are the identifiers of two consecutive draws. *)
Theorem consecutive_calls {engine : Engine} (config : object)
    (opts1 opts2 : option object) (w w1 w2 : world) (p1 p2 : promise) :
  verify config opts1 w = (Returned p1, w1) ->
  verify config opts2 w1 = (Returned p2, w2) ->
  exists r1 r2,
    wire w2 = wire w ++ [r1; r2]
    /\ p1 = ResponseOf (length (wire w))
    /\ p2 = ResponseOf (S (length (wire w)))
    /\ (has_own (default_param [] opts1) (lit "SignatureNonce") = false ->
        lookup (qs r1) (lit "SignatureNonce")
        = Some (Str (replace_all dash [] (uuid_source w (uuid_drawn w)))))
    /\ (has_own (default_param [] opts2) (lit "SignatureNonce") = false ->
        lookup (qs r2) (lit "SignatureNonce")
        = Some (Str (replace_all dash [] (uuid_source w (S (uuid_drawn w)))))).
Proof.
  intros H1 H2.
  apply verify_returned in H1. cbv zeta in H1.
  destruct H1 as (_ & _ & sig1 & _ & -> & ->).
  apply verify_returned in H2. cbv zeta in H2.
  destruct H2 as (_ & _ & sig2 & _ & -> & ->).
  eexists. eexists. split; [|split; [reflexivity|split]].
  - cbn [wire sent drawn]. rewrite <- app_assoc. reflexivity.
  - cbn [wire sent drawn]. rewrite length_app. cbn [length].
    f_equal. lia.
  - cbn [qs request_for]. split; intros Hno; unfold has_own in Hno;
      rewrite lookup_set by reflexivity; cbn [str_eqb lit];
      rewrite lookup_assembled_other by reflexivity;
      cbn [merged];
      (destruct (lookup _ (lit "SignatureNonce")); [discriminate|]);
      reflexivity.
Qed.

Lemma consecutive_calls_witness :
  exists r1 r2,
    wire (snd (verify (engine := ascii_engine) sample_config (Some overriding_opts)
                 (snd (verify (engine := ascii_engine) sample_config
                         (Some sample_opts) sample_world))))
    = wire sample_world ++ [r1; r2]
    /\ ResponseOf 0 = ResponseOf (length (wire sample_world))
    /\ ResponseOf 1 = ResponseOf (S (length (wire sample_world)))
    /\ (has_own (default_param [] (Some sample_opts)) (lit "SignatureNonce") = false ->
        lookup (qs r1) (lit "SignatureNonce")
        = Some (Str (replace_all dash []
                       (uuid_source sample_world (uuid_drawn sample_world)))))
    /\ (has_own (default_param [] (Some overriding_opts)) (lit "SignatureNonce") = false ->
        lookup (qs r2) (lit "SignatureNonce")
        = Some (Str (replace_all dash []
                       (uuid_source sample_world (S (uuid_drawn sample_world)))))).
Proof.
  apply (consecutive_calls (engine := ascii_engine) sample_config
           (Some sample_opts) (Some overriding_opts) sample_world
           (snd (verify (engine := ascii_engine) sample_config
                   (Some sample_opts) sample_world))).
  - vm_compute. reflexivity.
  - vm_compute. reflexivity.
Defined.

(** X7.  When the caller's options have no key "Signature", the Signature
    field of the request is the documented formula over the other fields of
    that request: base64(HMAC-SHA1(AccessKeySecret + "&", uppercase("GET") +
    "&%2F&" + escape(canonical query of the other fields))), none of which
    has an unpaired surrogate. *)
Theorem sent_signature {engine : Engine} (config : object) (opts : option object)
    (w w' : world) (p : promise) :
  verify config opts w = (Returned p, w') ->
  has_own (default_param [] opts) (lit "Signature") = false ->
  exists req,
    wire w' = wire w ++ [req]
    /\ params_well_formed (remove (qs req) (lit "Signature")) = true
    /\ lookup (qs req) (lit "Signature")
       = Some (Str (signature_formula str_leb
                      (remove (qs req) (lit "Signature"))
                      (get config (lit "AccessKeySecret")) (lit "GET"))).
Proof.
  intros H Hno.
  assert (Hfresh : has_own (assembled_params config (default_param [] opts) w)
                           (lit "Signature") = false).
  { rewrite has_own_assembled, Hno. reflexivity. }
  rewrite verify_table in H. cbv zeta in H.
  destruct (ToBoolean (get config (lit "AccessKeySecret"))); [|discriminate].
  destruct (required_present (default_param [] opts)); [|discriminate].
  cbn [negb] in H.
  destruct (params_well_formed _) eqn:Hwf; [|discriminate].
  inversion H; subst. eexists. split; [reflexivity|].
  cbn [qs request_for].
  rewrite (remove_set_fresh _ (lit "Signature") _ eq_refl Hfresh).
  split; [exact Hwf|]. rewrite lookup_set by reflexivity.
  now rewrite str_eqb_refl.
Qed.

Lemma sent_signature_witness :
  exists req,
    wire (snd (verify (engine := ascii_engine) sample_config (Some sample_opts)
                 sample_world))
    = wire sample_world ++ [req]
    /\ params_well_formed (remove (qs req) (lit "Signature")) = true
    /\ lookup (qs req) (lit "Signature")
       = Some (Str (signature_formula (engine := ascii_engine) str_leb
                      (remove (qs req) (lit "Signature"))
                      (get sample_config (lit "AccessKeySecret")) (lit "GET"))).
Proof.
  apply (sent_signature (engine := ascii_engine) sample_config (Some sample_opts)
           sample_world
           (snd (verify (engine := ascii_engine) sample_config (Some sample_opts)
                   sample_world))
           (ResponseOf 0)).
  - vm_compute. reflexivity.
  - vm_compute. reflexivity.
Defined.

(** ** The signer *)

Lemma lookup_map_text (params : object) (k : js_string) :
  lookup (map (fun kv => (fst kv, as_text (snd kv))) params) k
  = option_map as_text (lookup params k).
Proof.
  induction params as [|[k0 v0] o IH]; simpl; [reflexivity|].
  destruct (str_eqb k0 k); [reflexivity | exact IH].
Qed.

(** X8.  A value that is undefined is signed as the text "undefined": the
    signer's outcome does not change when every value, and the secret, is
    replaced by its text. *)
Theorem undefined_signed_as_text {engine : Engine} (params : object)
    (secret : value) (method : option js_string) (w : world) :
  getSignature params secret method w
  = getSignature (map (fun kv => (fst kv, as_text (snd kv))) params)
      (as_text secret) method w.
Proof.
  unfold getSignature.
  assert (Hkeys : Object_keys (map (fun kv => (fst kv, as_text (snd kv))) params)
                  = Object_keys params).
  { unfold Object_keys. now rewrite map_map. }
  rewrite Hkeys.
  rewrite (mapM_ext _ (fun key =>
             k <- escaper (Str key) ;;
             v <- escaper (get (map (fun kv => (fst kv, as_text (snd kv))) params) key) ;;
             ret (k ++ lit "=" ++ v))); [reflexivity|].
  intros key Hin.
  apply (Permutation_in _ (Array_sort_perm _)) in Hin.
  apply In_Object_keys, has_own_iff in Hin.
  unfold has_own in Hin. unfold get. rewrite lookup_map_text.
  destruct (lookup params key); [reflexivity | discriminate].
Qed.

(** *** The shape of a signature *)

Lemma be_octets_length (n : nat) (x : Z) : length (SHA1.be_octets n x) = n.
Proof. unfold SHA1.be_octets. now rewrite length_map, length_rev, length_seq. Qed.

Lemma be_octets_range (n : nat) (x : Z) : Forall octet (SHA1.be_octets n x).
Proof.
  unfold SHA1.be_octets. apply Forall_forall. intros b Hb.
  apply in_map_iff in Hb. destruct Hb as [i [<- _]].
  unfold octet. apply Z.mod_pos_bound. lia.
Qed.

(** A SHA-1 digest is twenty octets, whatever the message. *)
Lemma digest_shape (msg : octets) :
  length (SHA1.digest msg) = 20%nat /\ Forall octet (SHA1.digest msg).
Proof.
  unfold SHA1.digest.
  destruct (fold_left SHA1.compress _ SHA1.initial) as [[[[h0 h1] h2] h3] h4].
  cbn [flat_map]. split.
  - rewrite !length_app, !be_octets_length. reflexivity.
  - repeat (apply Forall_app; split); try apply be_octets_range. constructor.
Qed.

Lemma lor_below (n x y : Z) :
  0 <= n -> 0 <= x < 2 ^ n -> 0 <= y < 2 ^ n -> 0 <= Z.lor x y < 2 ^ n.
Proof.
  intros Hn Hx Hy. split; [apply Z.lor_nonneg; lia|].
  destruct (Z.eq_dec x 0) as [->|Hx0]; [now rewrite Z.lor_0_l|].
  destruct (Z.eq_dec y 0) as [->|Hy0]; [now rewrite Z.lor_0_r|].
  apply Z.log2_lt_pow2; [|rewrite Z.log2_lor by lia; apply Z.max_lub_lt;
                          apply Z.log2_lt_pow2; lia].
  assert (0 <= Z.lor x y) by (apply Z.lor_nonneg; lia).
  assert (Z.lor x y <> 0) by (rewrite Z.lor_eq_0_iff; tauto).
  lia.
Qed.

Lemma digit_in_alphabet (n : Z) : 0 <= n < 64 -> In (Base64.digit n) Base64.alphabet.
Proof.
  intros Hn. unfold Base64.digit. apply nth_In.
  change (length Base64.alphabet) with 64%nat. lia.
Qed.

Lemma sextet_high (a : Z) : octet a -> 0 <= Z.shiftr a 2 < 64.
Proof.
  unfold octet. intros H. rewrite Z.shiftr_div_pow2 by lia.
  change (2 ^ 2) with 4. Z.div_mod_to_equations. lia.
Qed.

Lemma sextet_low (c : Z) : 0 <= Z.land c 63 < 64.
Proof.
  change 63 with (Z.ones 6). rewrite Z.land_ones by lia.
  apply Z.mod_pos_bound. lia.
Qed.

Lemma sextet_tail (x s : Z) (m : Z) :
  (m = 3 /\ s = 4) \/ (m = 15 /\ s = 2) -> 0 <= Z.shiftl (Z.land x m) s < 64.
Proof.
  intros [[-> ->]|[-> ->]]; rewrite Z.shiftl_mul_pow2 by lia.
  - change 3 with (Z.ones 2). rewrite Z.land_ones by lia.
    pose proof (Z.mod_pos_bound x (2 ^ 2)). change (2 ^ 2) with 4 in *.
    change (2 ^ 4) with 16. lia.
  - change 15 with (Z.ones 4). rewrite Z.land_ones by lia.
    pose proof (Z.mod_pos_bound x (2 ^ 4)). change (2 ^ 4) with 16 in *.
    change (2 ^ 2) with 4. lia.
Qed.

Lemma sextet_mid (a b : Z) (m s r : Z) :
  (m = 3 /\ s = 4 /\ r = 4) \/ (m = 15 /\ s = 2 /\ r = 6) ->
  octet b -> 0 <= Z.lor (Z.shiftl (Z.land a m) s) (Z.shiftr b r) < 64.
Proof.
  intros Hc Hb. change 64 with (2 ^ 6). apply lor_below; [lia| |].
  - change (2 ^ 6) with 64. apply sextet_tail. tauto.
  - unfold octet in Hb.
    destruct Hc as [(-> & -> & ->)|(-> & -> & ->)];
      rewrite Z.shiftr_div_pow2 by lia.
    + change (2 ^ 4) with 16. change (2 ^ 6) with 64.
      Z.div_mod_to_equations. lia.
    + change (2 ^ 6) with 64. Z.div_mod_to_equations. lia.
Qed.

Create HintDb sextets.
#[local] Hint Resolve digit_in_alphabet sextet_high sextet_low : sextets.
#[local] Hint Extern 1 (0 <= Z.shiftl _ _ < 64) =>
  apply sextet_tail; tauto : sextets.
#[local] Hint Extern 1 (0 <= Z.lor _ _ < 64) =>
  apply sextet_mid; [tauto | assumption] : sextets.

(** The base64 text of twenty octets: 27 characters of the alphabet and one
    padding sign. *)
Lemma encode_twenty (bs : octets) :
  length bs = 20%nat -> Forall octet bs ->
  length (Base64.encode bs) = 28%nat
  /\ Forall (fun c => In c Base64.alphabet) (firstn 27 (Base64.encode bs))
  /\ nth 27 (Base64.encode bs) 0 = unit_of "=".
Proof.
  intros Hlen Hoct.
  do 20 (destruct bs as [|? bs]; [discriminate|]).
  destruct bs; [|discriminate].
  repeat match goal with
  | H : Forall octet (_ :: _) |- _ =>
      let H1 := fresh "Ho" in let H2 := fresh "Hf" in
      inversion H as [|? ? H1 H2]; subst; clear H
  end.
  cbn [Base64.encode firstn nth length].
  split; [reflexivity|]. split; [|reflexivity].
  repeat (constructor; [auto with sextets|]). constructor.
Qed.

(** X9.  A signature the signer returns is 28 characters long: 27
    characters of the base64 alphabet (letters, digits, "+" and "/")
    followed by one "=". *)
Theorem signature_shape {engine : Engine} (params : object) (secret : value)
    (method : option js_string) (w w' : world) (sig : js_string) :
  getSignature params secret method w = (Returned sig, w') ->
  length sig = 28%nat
  /\ Forall (fun c => In c Base64.alphabet) (firstn 27 sig)
  /\ nth 27 sig 0 = unit_of "=".
Proof.
  unfold getSignature, bind, ret. intros H.
  destruct (mapM _ _ w) as [[pairs|e] w1]; [|discriminate].
  destruct (escaper (Str (lit "/")) w1) as [[slash|e] w2]; [|discriminate].
  destruct (escaper _ w2) as [[query|e] w3]; [|discriminate].
  inversion H; subst. unfold createHmac_sha1_base64, HMAC.sha1.
  apply encode_twenty; apply digest_shape.
Qed.

Lemma signature_shape_witness :
  length (lit "CT9X0VtwR86fNWSnsc6v8YGOjuE=") = 28%nat
  /\ Forall (fun c => In c Base64.alphabet)
            (firstn 27 (lit "CT9X0VtwR86fNWSnsc6v8YGOjuE="))
  /\ nth 27 (lit "CT9X0VtwR86fNWSnsc6v8YGOjuE=") 0 = unit_of "=".
Proof.
  apply (signature_shape (engine := ascii_engine) documented_params
           (Str (lit "testsecret")) None sample_world sample_world).
  vm_compute. reflexivity.
Defined.

(** ** The escaper *)

(** *** UTF-8 in arithmetic *)

Lemma lor_high (n h x : Z) :
  0 <= n -> h mod 2 ^ n = 0 -> 0 <= x < 2 ^ n -> Z.lor h x = h + x.
Proof.
  intros Hn Hh Hx.
  assert (Hland : Z.land h x = 0).
  { assert (Hx' : Z.land (Z.ones n) x = x)
      by (rewrite Z.land_comm, Z.land_ones by lia; apply Z.mod_small; lia).
    rewrite <- Hx', Z.land_assoc, (Z.land_ones h) by lia.
    rewrite Hh. apply Z.land_0_l. }
  pose proof (Z.add_lor_land h x). lia.
Qed.

Lemma land_63 (x : Z) : Z.land x 0x3F = x mod 64.
Proof. change 0x3F with (Z.ones 6). now rewrite Z.land_ones by lia. Qed.

Lemma land_15 (x : Z) : Z.land x 15 = x mod 16.
Proof. change 15 with (Z.ones 4). now rewrite Z.land_ones by lia. Qed.

Lemma continuation (x : Z) : Z.lor 0x80 (Z.land x 0x3F) = 128 + x mod 64.
Proof.
  rewrite land_63. apply (lor_high 7); [lia | reflexivity|].
  change (2 ^ 7) with 128. Z.div_mod_to_equations. lia.
Qed.

(** The octets of a code point, without bit operations. *)
Lemma utf8_arith (cp : Z) :
  code_point cp ->
  utf8_of_code_point cp
  = if cp <? 0x80 then [cp]
    else if cp <? 0x800 then [192 + cp / 64; 128 + cp mod 64]
    else if cp <? 0x10000 then
      [224 + cp / 4096; 128 + (cp / 64) mod 64; 128 + cp mod 64]
    else
      [240 + cp / 262144; 128 + (cp / 4096) mod 64; 128 + (cp / 64) mod 64;
       128 + cp mod 64].
Proof.
  unfold code_point, utf8_of_code_point. intros H.
  rewrite !continuation, !Z.shiftr_div_pow2 by lia.
  change (2 ^ 6) with 64. change (2 ^ 12) with 4096. change (2 ^ 18) with 262144.
  destruct (Z.ltb_spec cp 0x80); [reflexivity|].
  destruct (Z.ltb_spec cp 0x800).
  - f_equal. apply (lor_high 6); [lia | reflexivity|].
    change (2 ^ 6) with 64. Z.div_mod_to_equations. lia.
  - destruct (Z.ltb_spec cp 0x10000).
    + f_equal. apply (lor_high 5); [lia | reflexivity|].
      change (2 ^ 5) with 32. Z.div_mod_to_equations. lia.
    + f_equal. apply (lor_high 4); [lia | reflexivity|].
      change (2 ^ 4) with 16. Z.div_mod_to_equations. lia.
Qed.

Lemma utf8_octets (cp : Z) : code_point cp -> Forall octet (utf8_of_code_point cp).
Proof.
  intros H. rewrite (utf8_arith cp H). unfold code_point, octet in *.
  destruct (cp <? 0x80) eqn:E1; [|destruct (cp <? 0x800) eqn:E2;
                                   [|destruct (cp <? 0x10000) eqn:E3]];
    bool_to_Z; repeat constructor; Z.div_mod_to_equations; lia.
Qed.

Lemma code_points_range (s : js_string) :
  Forall code_unit s -> Forall code_point (StringToCodePoints s).
Proof.
  assert (H : forall n s, (length s <= n)%nat -> Forall code_unit s ->
                Forall code_point (StringToCodePoints s)).
  { induction n as [|n IH]; intros [|c r] Hlen Hs; simpl in *;
      try constructor; try lia.
    - inversion Hs as [|? ? Hc Hr]; subst.
      assert (Hcp : code_point c) by (unfold code_unit, code_point in *; lia).
      destruct (is_leading_surrogate c) eqn:Hl.
      + destruct r as [|d r']; [constructor; [exact Hcp | constructor]|].
        inversion Hr as [|? ? Hd Hr']; subst.
        destruct (is_trailing_surrogate d) eqn:Ht.
        * constructor; [|apply IH; [simpl in Hlen; lia | exact Hr']].
          apply surrogate_range in Hl. apply surrogate_range in Ht.
          unfold code_point, UTF16SurrogatePairToCodePoint. lia.
        * constructor; [exact Hcp | apply IH; [lia | exact Hr]].
      + constructor; [exact Hcp | apply IH; [lia | exact Hr]]. }
  apply (H (length s)). lia.
Qed.

(** *** The characters of an escaped string *)

Lemma hex_digit_char (n : Z) : 0 <= n < 16 -> In (hex_digit n) (lit "0123456789ABCDEF").
Proof.
  intros H. unfold hex_digit. apply nth_In.
  change (length (lit "0123456789ABCDEF")) with 16%nat. lia.
Qed.

Lemma percent_octet_chars (b : Z) : octet b -> Forall escaped_char (percent_octet b).
Proof.
  unfold octet. intros H. unfold percent_octet.
  constructor; [right; left; reflexivity|].
  constructor; [right; right; apply hex_digit_char|].
  - rewrite Z.shiftr_div_pow2 by lia. change (2 ^ 4) with 16.
    Z.div_mod_to_equations. lia.
  - constructor; [|constructor]. right. right. apply hex_digit_char.
    rewrite land_15. Z.div_mod_to_equations. lia.
Qed.

Lemma escape_chars (s : js_string) :
  Forall code_unit s -> Forall escaped_char (escape_rfc3986 s).
Proof.
  intros Hs. apply code_points_range in Hs. unfold escape_rfc3986.
  induction Hs as [|cp cps Hcp _ IH]; simpl; [constructor|].
  apply Forall_app. split; [|exact IH].
  destruct (rfc3986_unreserved cp) eqn:Hu.
  - repeat constructor. exact Hu.
  - unfold percent_encode. apply utf8_octets in Hcp.
    induction Hcp as [|b bs Hb _ IHb]; [constructor|].
    cbn [flat_map]. apply Forall_app.
    split; [now apply percent_octet_chars | exact IHb].
Qed.

(** X10.  Whatever the escaper returns for a string of code units is made of
    the unreserved characters A-Z a-z 0-9 - _ . ~, the percent sign and the
    upper-case hexadecimal digits only: no reserved character, no space and
    none of ! ' ( ) * is left in it. *)
Theorem escaper_output_alphabet (s : js_string) (w w' : world) (r : js_string) :
  Forall code_unit s ->
  escaper (Str s) w = (Returned r, w') ->
  Forall escaped_char r.
Proof.
  intros Hs H. rewrite escaper_run in H. simpl ToString in H.
  destruct (is_well_formed s); [|discriminate].
  inversion H; subst. now apply escape_chars.
Qed.

Lemma escaper_output_alphabet_witness :
  Forall escaped_char (lit "a%20b%2Fc%3D%E4%B8%AD%21").
Proof.
  apply (escaper_output_alphabet
           ([97; 32; 98; 47; 99; 61; 0x4E2D; 33]) sample_world sample_world).
  - repeat constructor; unfold code_unit; lia.
  - vm_compute. reflexivity.
Defined.

Lemma escaped_char_range (c : Z) : escaped_char c -> 37 <= c <= 126.
Proof.
  intros [H|H]; [apply rfc3986_unreserved_range in H; lia|].
  revert H. eval_lits. simpl. intros H.
  repeat (destruct H as [<-|H]; [lia|]). contradiction.
Qed.

Lemma escaped_plain (r : js_string) : Forall escaped_char r -> plain r.
Proof.
  intros H. eapply Forall_impl; [|exact H].
  intros c Hc. apply escaped_char_range in Hc. lia.
Qed.

Lemma plain_code_points (r : js_string) : plain r -> StringToCodePoints r = r.
Proof.
  intros H. apply code_points_without_surrogates.
  eapply Forall_impl; [|exact H]. intros c Hc. now apply not_surrogate_below.
Qed.

Lemma escape_escaped (r : js_string) :
  Forall escaped_char r ->
  escape_rfc3986 r = replace_all (unit_of "%") (lit "%25") r.
Proof.
  intros H. unfold escape_rfc3986, replace_all.
  rewrite (plain_code_points r (escaped_plain r H)).
  induction H as [|c r Hc _ IH]; simpl; [reflexivity|].
  rewrite IH. f_equal.
  destruct Hc as [Hu|Hin].
  - rewrite Hu. apply rfc3986_unreserved_range in Hu.
    destruct (Z.eqb_spec c (unit_of "%")) as [->|]; [|reflexivity].
    change (unit_of "%") with 37 in Hu. lia.
  - revert Hin. eval_lits. simpl. intros Hin.
    repeat (destruct Hin as [<-|Hin]; [reflexivity|]). contradiction.
Qed.

(** X11.  Escaping what the escaper returned never throws, and changes it in
    one way only: each percent sign becomes "%25". *)
Theorem escaper_twice (s : js_string) (w w' : world) (r : js_string) :
  Forall code_unit s ->
  escaper (Str s) w = (Returned r, w') ->
  escaper (Str r) w = (Returned (replace_all (unit_of "%") (lit "%25") r), w).
Proof.
  intros Hs H.
  assert (Hr : Forall escaped_char r).
  { rewrite escaper_run in H. simpl ToString in H.
    destruct (is_well_formed s); [|discriminate].
    inversion H; subst. now apply escape_chars. }
  rewrite escaper_run. simpl ToString.
  rewrite (plain_well_formed r (escaped_plain r Hr)).
  now rewrite (escape_escaped r Hr).
Qed.

Lemma escaper_twice_witness :
  escaper (Str (lit "a%20b%2Fc")) sample_world
  = (Returned (replace_all (unit_of "%") (lit "%25") (lit "a%20b%2Fc")), sample_world).
Proof.
  apply (escaper_twice (lit "a b/c") sample_world sample_world).
  - apply lit_code_units.
  - vm_compute. reflexivity.
Defined.

(** *** Concatenation *)

Lemma well_formed_app (a b : js_string) :
  is_well_formed a = true ->
  is_well_formed (a ++ b) = is_well_formed b
  /\ StringToCodePoints (a ++ b) = StringToCodePoints a ++ StringToCodePoints b.
Proof.
  assert (H : forall n a, (length a <= n)%nat -> is_well_formed a = true ->
                is_well_formed (a ++ b) = is_well_formed b
                /\ StringToCodePoints (a ++ b)
                   = StringToCodePoints a ++ StringToCodePoints b).
  { induction n as [|n IH]; intros [|c r] Hlen Hwf; simpl in *;
      try (split; reflexivity); try lia.
    destruct (is_leading_surrogate c) eqn:Hl.
    - destruct r as [|d r']; [discriminate|]. simpl in *.
      apply andb_true_iff in Hwf. destruct Hwf as [Hd Hwf]. rewrite Hd.
      destruct (IH r') as [IH1 IH2]; [lia | exact Hwf|].
      simpl. rewrite IH1, IH2. split; reflexivity.
    - apply andb_true_iff in Hwf. destruct Hwf as [Ht Hwf]. rewrite Ht.
      destruct (IH r) as [IH1 IH2]; [lia | exact Hwf|].
      simpl. rewrite IH1, IH2. split; reflexivity. }
  apply (H (length a)). lia.
Qed.

(** X12.  The escaper goes through concatenation: when it returns [ra] for
    [a] and [rb] for [b], it returns [ra ++ rb] for [a ++ b]. *)
Theorem escaper_concat (a b : js_string) (w wa wb : world) (ra rb : js_string) :
  escaper (Str a) w = (Returned ra, wa) ->
  escaper (Str b) w = (Returned rb, wb) ->
  escaper (Str (a ++ b)) w = (Returned (ra ++ rb), w).
Proof.
  rewrite !escaper_run. simpl ToString. intros Ha Hb.
  destruct (is_well_formed a) eqn:Ea; [|discriminate].
  destruct (is_well_formed b) eqn:Eb; [|discriminate].
  inversion Ha; inversion Hb; subst.
  destruct (well_formed_app a b Ea) as [Hwf Hcp].
  rewrite Hwf, Eb. unfold escape_rfc3986. now rewrite Hcp, flat_map_app.
Qed.

Lemma escaper_concat_witness :
  escaper (Str (lit "a b" ++ [0xD83D; 0xDE00])) sample_world
  = (Returned (lit "a%20b" ++ lit "%F0%9F%98%80"), sample_world).
Proof.
  apply (escaper_concat (lit "a b") [0xD83D; 0xDE00] sample_world
           sample_world sample_world).
  - vm_compute. reflexivity.
  - vm_compute. reflexivity.
Defined.

(** *** The escaper loses nothing *)

Lemma hex_digit_inj (m n : Z) :
  0 <= m < 16 -> 0 <= n < 16 -> hex_digit m = hex_digit n -> m = n.
Proof.
  intros Hm Hn H. unfold hex_digit in H.
  assert (Hnd : NoDup (lit "0123456789ABCDEF")).
  { vm_compute. repeat (constructor; [simpl; intuition discriminate|]). constructor. }
  apply (proj1 (NoDup_nth _ 0) Hnd) in H;
    change (length (lit "0123456789ABCDEF")) with 16%nat; lia.
Qed.

Lemma percent_octet_inj (b1 b2 : Z) (r1 r2 : js_string) :
  octet b1 -> octet b2 ->
  percent_octet b1 ++ r1 = percent_octet b2 ++ r2 -> b1 = b2 /\ r1 = r2.
Proof.
  unfold octet, percent_octet. intros H1 H2 H. simpl in H.
  injection H as Hhi Hlo Hr. split; [|exact Hr].
  rewrite !Z.shiftr_div_pow2 in Hhi by lia. change (2 ^ 4) with 16 in Hhi.
  rewrite !land_15 in Hlo.
  apply hex_digit_inj in Hhi; [|Z.div_mod_to_equations; lia..].
  apply hex_digit_inj in Hlo; [|Z.div_mod_to_equations; lia..].
  Z.div_mod_to_equations. lia.
Qed.

Arguments percent_octet : simpl never.

Ltac peel_octet H :=
  let Hb := fresh "Hb" in
  apply percent_octet_inj in H;
  [ destruct H as [Hb H]
  | unfold octet; Z.div_mod_to_equations; lia
  | unfold octet; Z.div_mod_to_equations; lia ].

Lemma percent_encode_inj (cp1 cp2 : Z) (r1 r2 : js_string) :
  code_point cp1 -> code_point cp2 ->
  percent_encode cp1 ++ r1 = percent_encode cp2 ++ r2 -> cp1 = cp2 /\ r1 = r2.
Proof.
  intros H1 H2 H. unfold percent_encode in H.
  rewrite (utf8_arith cp1 H1), (utf8_arith cp2 H2) in H.
  unfold code_point in *.
  destruct (cp1 <? 0x80) eqn:A1; [|destruct (cp1 <? 0x800) eqn:A2;
                                    [|destruct (cp1 <? 0x10000) eqn:A3]];
  (destruct (cp2 <? 0x80) eqn:B1; [|destruct (cp2 <? 0x800) eqn:B2;
                                    [|destruct (cp2 <? 0x10000) eqn:B3]]);
  bool_to_Z; cbn [flat_map] in H; rewrite <- ?app_assoc in H;
  cbn [app] in H; peel_octet H;
  try (exfalso; Z.div_mod_to_equations; lia);
  repeat peel_octet H;
  (split; [Z.div_mod_to_equations; lia | exact H]).
Qed.

Lemma percent_encode_head (cp : Z) :
  code_point cp -> exists t, percent_encode cp = 37 :: t.
Proof.
  intros H. unfold percent_encode. rewrite (utf8_arith cp H).
  destruct (cp <? 0x80); [|destruct (cp <? 0x800); [|destruct (cp <? 0x10000)]];
    eexists; reflexivity.
Qed.

Lemma escape_unit_inj (cp1 cp2 : Z) (r1 r2 : js_string) :
  code_point cp1 -> code_point cp2 ->
  (if rfc3986_unreserved cp1 then [cp1] else percent_encode cp1) ++ r1
  = (if rfc3986_unreserved cp2 then [cp2] else percent_encode cp2) ++ r2 ->
  cp1 = cp2 /\ r1 = r2.
Proof.
  intros H1 H2 H.
  destruct (rfc3986_unreserved cp1) eqn:U1, (rfc3986_unreserved cp2) eqn:U2.
  - injection H as -> ->. split; reflexivity.
  - destruct (percent_encode_head cp2 H2) as [t Ht]. rewrite Ht in H.
    injection H as -> _. apply rfc3986_unreserved_range in U1. lia.
  - destruct (percent_encode_head cp1 H1) as [t Ht]. rewrite Ht in H.
    injection H as <- _. apply rfc3986_unreserved_range in U2. lia.
  - now apply percent_encode_inj.
Qed.

Lemma escape_points_inj (l1 l2 : list Z) :
  Forall code_point l1 -> Forall code_point l2 ->
  flat_map (fun cp => if rfc3986_unreserved cp then [cp] else percent_encode cp) l1
  = flat_map (fun cp => if rfc3986_unreserved cp then [cp] else percent_encode cp) l2 ->
  l1 = l2.
Proof.
  intros H1. revert l2.
  assert (Hne : forall cp t, code_point cp ->
            (if rfc3986_unreserved cp then [cp] else percent_encode cp) ++ t <> []).
  { intros cp t Hcp. destruct (rfc3986_unreserved cp); [discriminate|].
    destruct (percent_encode_head cp Hcp) as [t' ->]. discriminate. }
  induction H1 as [|cp1 l1 Hcp1 _ IH]; intros l2 H2 H.
  - destruct H2 as [|cp2 l2 Hcp2 _]; [reflexivity|].
    simpl in H. symmetry in H. now apply Hne in H.
  - destruct H2 as [|cp2 l2 Hcp2 H2].
    + simpl in H. now apply Hne in H.
    + cbn [flat_map] in H. apply escape_unit_inj in H; try assumption.
      destruct H as [-> H]. f_equal. now apply IH.
Qed.

Lemma utf16_round_trip (s : js_string) :
  Forall code_unit s -> is_well_formed s = true ->
  flat_map utf16_units (StringToCodePoints s) = s.
Proof.
  assert (H : forall n s, (length s <= n)%nat -> Forall code_unit s ->
                is_well_formed s = true ->
                flat_map utf16_units (StringToCodePoints s) = s).
  { induction n as [|n IH]; intros [|c r] Hlen Hs Hwf; simpl in *;
      try reflexivity; try lia.
    inversion Hs as [|? ? Hc Hr]; subst. unfold code_unit in Hc.
    destruct (is_leading_surrogate c) eqn:Hl.
    - destruct r as [|d r']; [discriminate|].
      apply andb_true_iff in Hwf. destruct Hwf as [Hd Hwf]. rewrite Hd.
      inversion Hr as [|? ? _ Hr']; subst.
      cbn [flat_map]. rewrite IH by (simpl in Hlen; try lia; assumption).
      apply surrogate_range in Hl. apply surrogate_range in Hd.
      unfold utf16_units, UTF16SurrogatePairToCodePoint.
      destruct (Z.ltb_spec ((c - 0xD800) * 0x400 + (d - 0xDC00) + 0x10000) 0x10000);
        [lia|].
      cbn [app]. f_equal; [|f_equal]; Z.div_mod_to_equations; lia.
    - apply andb_true_iff in Hwf. destruct Hwf as [_ Hwf].
      cbn [flat_map]. rewrite IH by (try lia; assumption).
      unfold utf16_units. destruct (Z.ltb_spec c 0x10000); [reflexivity | lia]. }
  apply (H (length s)). lia.
Qed.

Lemma escape_rfc3986_inj (s1 s2 : js_string) :
  Forall code_unit s1 -> Forall code_unit s2 ->
  is_well_formed s1 = true -> is_well_formed s2 = true ->
  escape_rfc3986 s1 = escape_rfc3986 s2 -> s1 = s2.
Proof.
  intros H1 H2 W1 W2 H. unfold escape_rfc3986 in H.
  apply escape_points_inj in H; try now apply code_points_range.
  rewrite <- (utf16_round_trip s1 H1 W1), <- (utf16_round_trip s2 H2 W2).
  now rewrite H.
Qed.

(** X13.  The escaper loses nothing: two strings of code units for which it
    returns the same text are the same string. *)
Theorem escaper_injective (s1 s2 : js_string) (w w1 w2 : world) (r : js_string) :
  Forall code_unit s1 -> Forall code_unit s2 ->
  escaper (Str s1) w = (Returned r, w1) ->
  escaper (Str s2) w = (Returned r, w2) ->
  s1 = s2.
Proof.
  intros H1 H2. rewrite !escaper_run. simpl ToString. intros E1 E2.
  destruct (is_well_formed s1) eqn:W1; [|discriminate].
  destruct (is_well_formed s2) eqn:W2; [|discriminate].
  apply escape_rfc3986_inj; try assumption. congruence.
Qed.

Lemma escaper_injective_witness : lit "a b" = [97; 32; 98].
Proof.
  apply (escaper_injective (lit "a b") [97; 32; 98] sample_world sample_world
           sample_world (lit "a%20b")).
  - apply lit_code_units.
  - repeat constructor; unfold code_unit; lia.
  - vm_compute. reflexivity.
  - vm_compute. reflexivity.
Defined.

(** ** The string that is signed *)

Lemma split_at (sep : Z) (a1 a2 t1 t2 : js_string) :
  ~ In sep a1 -> ~ In sep a2 ->
  (t1 = [] \/ exists u, t1 = sep :: u) ->
  (t2 = [] \/ exists u, t2 = sep :: u) ->
  a1 ++ t1 = a2 ++ t2 -> a1 = a2 /\ t1 = t2.
Proof.
  revert a2. induction a1 as [|x a1 IH]; intros [|y a2] N1 N2 T1 T2 H; simpl in *.
  - now split.
  - exfalso. destruct T1 as [->|[u ->]]; [discriminate|].
    injection H as <- _. apply N2. now left.
  - exfalso. destruct T2 as [->|[u ->]]; [discriminate|].
    injection H as -> _. apply N1. now left.
  - injection H as -> H. apply IH in H; try tauto.
    destruct H as [-> ->]. now split.
Qed.

Lemma amp_tail_shape (l : list js_string) :
  flat_map (fun y => lit "&" ++ y) l = []
  \/ exists u, flat_map (fun y => lit "&" ++ y) l = 38 :: u.
Proof. destruct l as [|y l]; [now left | right; eexists; reflexivity]. Qed.

Lemma amp_tail_inj (l1 l2 : list js_string) :
  Forall (fun x => ~ In 38 x) l1 -> Forall (fun x => ~ In 38 x) l2 ->
  flat_map (fun y => lit "&" ++ y) l1 = flat_map (fun y => lit "&" ++ y) l2 ->
  l1 = l2.
Proof.
  intros H1. revert l2. induction H1 as [|y1 l1 Hy1 _ IH]; intros l2 H2 H.
  - destruct l2; [reflexivity | discriminate].
  - destruct H2 as [|y2 l2 Hy2 H2]; [discriminate|].
    cbn [flat_map] in H. change (lit "&" ++ y1) with (38 :: y1) in H.
    change (lit "&" ++ y2) with (38 :: y2) in H.
    simpl in H. injection H as H.
    apply (split_at 38) in H; try assumption; try apply amp_tail_shape.
    destruct H as [-> H]. f_equal. now apply IH.
Qed.

Lemma join_amp_inj (l1 l2 : list js_string) :
  Forall (fun x => ~ In 38 x /\ x <> []) l1 ->
  Forall (fun x => ~ In 38 x /\ x <> []) l2 ->
  join (lit "&") l1 = join (lit "&") l2 -> l1 = l2.
Proof.
  intros H1 H2 H.
  assert (Hno : forall l, Forall (fun x => ~ In 38 x /\ x <> []) l ->
                  Forall (fun x : js_string => ~ In 38 x) l).
  { intros l Hl. eapply Forall_impl; [|exact Hl]. simpl. tauto. }
  destruct H1 as [|x1 l1 [N1 E1] H1], H2 as [|x2 l2 [N2 E2] H2]; simpl in H.
  - reflexivity.
  - destruct x2; [congruence | discriminate].
  - destruct x1; [congruence | discriminate].
  - apply (split_at 38) in H; try assumption; try apply amp_tail_shape.
    destruct H as [-> H]. f_equal. apply amp_tail_inj; auto.
Qed.

Lemma escaped_char_not_separator (c : Z) : escaped_char c -> c <> 38 /\ c <> 61.
Proof.
  intros [H|H].
  - split; intros ->; discriminate.
  - revert H. eval_lits. simpl. intros H.
    repeat (destruct H as [<-|H]; [split; discriminate|]). contradiction.
Qed.

Lemma escape_no_separator (s : js_string) :
  Forall code_unit s ->
  ~ In 38 (escape_rfc3986 s) /\ ~ In 61 (escape_rfc3986 s).
Proof.
  intros Hs. apply escape_chars in Hs. rewrite Forall_forall in Hs.
  split; intros Hin; apply Hs, escaped_char_not_separator in Hin; tauto.
Qed.

Lemma entry_text_shape (kv : js_string * value) :
  entry_in_range kv -> ~ In 38 (entry_text kv) /\ entry_text kv <> [].
Proof.
  intros [Hk Hv]. unfold entry_text.
  destruct (escape_no_separator _ Hk) as [Nk _].
  destruct (escape_no_separator _ Hv) as [Nv _].
  split.
  - rewrite !in_app_iff. change (lit "=") with [61]. simpl.
    intros [H|[[H|[]]|H]]; try tauto. discriminate.
  - destruct (escape_rfc3986 (fst kv)); discriminate.
Qed.

Lemma entry_text_inj (kv1 kv2 : js_string * value) :
  entry_in_range kv1 -> entry_in_range kv2 ->
  entry_well_formed kv1 = true -> entry_well_formed kv2 = true ->
  entry_text kv1 = entry_text kv2 -> text_entry kv1 = text_entry kv2.
Proof.
  intros [Hk1 Hv1] [Hk2 Hv2] W1 W2 H.
  unfold entry_well_formed in *.
  apply andb_true_iff in W1. apply andb_true_iff in W2.
  unfold entry_text in H. change (lit "=") with [61] in H. cbn [app] in H.
  apply (split_at 61) in H;
    try (now apply escape_no_separator); try (right; eexists; reflexivity).
  destruct H as [Hk Hv]. injection Hv as Hv.
  unfold text_entry. f_equal; apply escape_rfc3986_inj; tauto.
Qed.

Lemma map_inj_on {A B C : Type} (f : A -> B) (g : A -> C) (l1 l2 : list A) :
  (forall x y, In x l1 -> In y l2 -> f x = f y -> g x = g y) ->
  map f l1 = map f l2 -> map g l1 = map g l2.
Proof.
  revert l2. induction l1 as [|x l1 IH]; intros [|y l2] Hinj H; simpl in *;
    try reflexivity; try discriminate.
  injection H as Hxy H. f_equal.
  - apply Hinj; auto.
  - apply IH; [|exact H]. intros a b Ha Hb. apply Hinj; auto.
Qed.

Lemma join_amp_Forall (Q : Z -> Prop) (l : list js_string) :
  Q 38 -> (forall x, In x l -> Forall Q x) -> Forall Q (join (lit "&") l).
Proof.
  intros Hamp Hl. destruct l as [|x l]; simpl; [constructor|].
  apply Forall_app. split; [apply Hl; now left|].
  assert (Hl' : forall y, In y l -> Forall Q y) by (intros y Hy; apply Hl; now right).
  clear Hl. induction l as [|y l IH]; simpl; [constructor|].
  constructor; [exact Hamp|]. apply Forall_app. split; [apply Hl'; now left|].
  apply IH. intros z Hz. apply Hl'. now right.
Qed.

Lemma canonical_query_range (params : object) :
  Forall entry_in_range params ->
  Forall code_unit (canonical_query str_leb params).
Proof.
  intros Hr.
  assert (Hq : forall c, escaped_char c \/ c = 61 \/ c = 38 -> code_unit c).
  { intros c [H|[->| ->]]; unfold code_unit; try lia.
    apply escaped_char_range in H. lia. }
  assert (He : forall kv, In kv params ->
            Forall (fun c => escaped_char c \/ c = 61 \/ c = 38) (entry_text kv)).
  { intros kv Hin. rewrite Forall_forall in Hr. destruct (Hr kv Hin) as [Hk Hv].
    unfold entry_text. repeat (apply Forall_app; split).
    - eapply Forall_impl; [|apply (escape_chars _ Hk)]. tauto.
    - constructor; [right; left; reflexivity | constructor].
    - eapply Forall_impl; [|apply (escape_chars _ Hv)]. tauto. }
  eapply Forall_impl; [exact Hq|].
  unfold canonical_query. apply join_amp_Forall; [right; right; reflexivity|].
  intros x Hx. apply in_map_iff in Hx. destruct Hx as [kv [<- Hkv]].
  apply He. eapply Permutation_in; [apply isort_perm | exact Hkv].
Qed.

Section SignStrFacts.

Context {engine : Engine}.

(** The signer is HMAC over that string. *)
Lemma getSignature_by_signStr (params : object) (secret : value)
    (method : option js_string) (w : world) :
  getSignature params secret method w
  = (s <- signStr_of params method ;;
     ret (createHmac_sha1_base64 (ToString secret ++ lit "&") s)) w.
Proof.
  unfold getSignature, signStr_of, bind, ret.
  destruct (mapM _ _ w) as [[pairs|e] w1]; [|reflexivity].
  destruct (escaper (Str (lit "/")) w1) as [[slash|e] w2]; [|reflexivity].
  destruct (escaper _ w2) as [[query|e] w3]; reflexivity.
Qed.

Lemma signStr_outcome (params : object) (method : option js_string) (w : world) :
  own_keys_unique params ->
  signStr_of params method w
  = (if params_well_formed params
     then Returned (signing_string str_leb params (default_param (lit "GET") method))
     else Threw URIError, w).
Proof.
  intros Hnd. unfold signStr_of. unfold bind at 1.
  rewrite (mapM_run _
             (fun key => is_well_formed key
                         && is_well_formed (ToString (get params key)))
             (fun key => entry_text (key, get params key)) URIError)
    by (intros a w'; apply pair_run).
  rewrite sorted_keys_of_entries.
  assert (Hincl : incl (entries_sorted_by_key str_leb params) params).
  { intros x Hx. eapply Permutation_in; [apply isort_perm | exact Hx]. }
  destruct (entries_agree params _ Hnd Hincl) as [Hok Htxt].
  rewrite Hok, Htxt.
  unfold entries_sorted_by_key at 1.
  rewrite (forallb_perm _ _ params) by apply isort_perm.
  fold (params_well_formed params).
  destruct (params_well_formed params); [|reflexivity].
  fold (canonical_query str_leb params).
  unfold bind. rewrite !escaper_run. simpl ToString.
  rewrite (plain_well_formed _ (plain_canonical_query str_leb params)).
  change (is_well_formed (lit "/")) with true. cbv iota.
  reflexivity.
Qed.

(** X14.  The string handed to HMAC determines the parameters: two objects
    (keys and values strings of code units) for which, with the same method,
    the signer builds the same string have the same keys with the same
    values as text.  No two different parameter sets are confused by the
    escaping and the joining with "=" and "&". *)
Theorem signStr_determines_params (params1 params2 : object)
    (method : option js_string) (w w1 w2 : world) (s : js_string) :
  own_keys_unique params1 -> own_keys_unique params2 ->
  Forall entry_in_range params1 -> Forall entry_in_range params2 ->
  signStr_of params1 method w = (Returned s, w1) ->
  signStr_of params2 method w = (Returned s, w2) ->
  Permutation (map text_entry params1) (map text_entry params2).
Proof.
  intros U1 U2 R1 R2 S1 S2.
  rewrite (signStr_outcome _ _ _ U1) in S1. rewrite (signStr_outcome _ _ _ U2) in S2.
  destruct (params_well_formed params1) eqn:W1; [|discriminate].
  destruct (params_well_formed params2) eqn:W2; [|discriminate].
  assert (H : signing_string str_leb params1 (default_param (lit "GET") method)
              = signing_string str_leb params2 (default_param (lit "GET") method))
    by congruence.
  unfold signing_string in H.
  repeat apply app_inv_head in H.
  apply escape_rfc3986_inj in H;
    try (now apply canonical_query_range);
    try (apply plain_well_formed, plain_canonical_query).
  unfold canonical_query in H.
  unfold params_well_formed in W1, W2. rewrite forallb_forall in W1, W2.
  rewrite Forall_forall in R1, R2.
  assert (P1 : Permutation (entries_sorted_by_key str_leb params1) params1)
    by apply isort_perm.
  assert (P2 : Permutation (entries_sorted_by_key str_leb params2) params2)
    by apply isort_perm.
  apply join_amp_inj in H.
  - apply (map_inj_on entry_text text_entry) in H.
    + transitivity (map text_entry (entries_sorted_by_key str_leb params1)).
      * symmetry. now apply Permutation_map.
      * rewrite H. now apply Permutation_map.
    + intros x y Hx Hy.
      apply (Permutation_in _ P1) in Hx. apply (Permutation_in _ P2) in Hy.
      apply entry_text_inj;
        [apply R1 | apply R2 | apply W1 | apply W2]; assumption.
  - apply Forall_forall. intros x Hx. apply in_map_iff in Hx.
    destruct Hx as [kv [<- Hkv]]. apply entry_text_shape, R1.
    now apply (Permutation_in _ P1).
  - apply Forall_forall. intros x Hx. apply in_map_iff in Hx.
    destruct Hx as [kv [<- Hkv]]. apply entry_text_shape, R2.
    now apply (Permutation_in _ P2).
Qed.

End SignStrFacts.

Lemma signStr_determines_params_witness :
  Permutation (map text_entry params_b_a) (map text_entry params_a_b).
Proof.
  assert (Hr : forall o, o = params_b_a \/ o = params_a_b -> Forall entry_in_range o).
  { intros o [->| ->]; repeat constructor; unfold code_unit; simpl; lia. }
  assert (Hu : forall o, o = params_b_a \/ o = params_a_b -> own_keys_unique o).
  { intros o [->| ->]; apply literal_keys_unique. }
  apply (signStr_determines_params (engine := ascii_engine) params_b_a params_a_b
           None sample_world sample_world sample_world
           (lit "GET&%2F&a%3D2%26b%3D1"));
    try (apply Hr; tauto); try (apply Hu; tauto); vm_compute; reflexivity.
Defined.

(** ** Length of an escaped string *)

Lemma percent_octets_length (bs : octets) :
  length (flat_map percent_octet bs) = (3 * length bs)%nat.
Proof.
  induction bs as [|b bs IH]; [reflexivity|].
  cbn [flat_map]. rewrite length_app, IH. cbn [length percent_octet]. simpl. lia.
Qed.

Lemma escape_unit_length (cp : Z) :
  code_point cp ->
  (length (utf16_units cp)
   <= length (if rfc3986_unreserved cp then [cp] else percent_encode cp)
   <= 9 * length (utf16_units cp))%nat.
Proof.
  intros H. unfold utf16_units.
  destruct (rfc3986_unreserved cp) eqn:U.
  - apply rfc3986_unreserved_range in U.
    destruct (Z.ltb_spec cp 0x10000); [simpl; lia | lia].
  - unfold percent_encode. rewrite percent_octets_length, (utf8_arith cp H).
    destruct (Z.ltb_spec cp 0x80); [destruct (Z.ltb_spec cp 0x10000); [simpl; lia | lia]|].
    destruct (Z.ltb_spec cp 0x800); [destruct (Z.ltb_spec cp 0x10000); [simpl; lia | lia]|].
    destruct (Z.ltb_spec cp 0x10000); simpl; lia.
Qed.

(** X15.  What the escaper returns for a string of code units is at least as
    long as the string and at most nine times as long. *)
Theorem escaper_length (s : js_string) (w w' : world) (r : js_string) :
  Forall code_unit s ->
  escaper (Str s) w = (Returned r, w') ->
  (length s <= length r <= 9 * length s)%nat.
Proof.
  intros Hs H. rewrite escaper_run in H. simpl ToString in H.
  destruct (is_well_formed s) eqn:W; [|discriminate].
  inversion H; subst. clear H.
  assert (Hlen : length s = length (flat_map utf16_units (StringToCodePoints s)))
    by (now rewrite utf16_round_trip).
  rewrite Hlen. clear Hlen.
  unfold escape_rfc3986. apply code_points_range in Hs.
  induction Hs as [|cp cps Hcp _ IH]; [simpl; lia|].
  cbn [flat_map]. rewrite !length_app.
  pose proof (escape_unit_length cp Hcp). lia.
Qed.

Lemma escaper_length_witness :
  (length [0x4E2D; 97]%Z <= length (lit "%E4%B8%ADa")
   <= 9 * length [0x4E2D; 97]%Z)%nat.
Proof.
  apply (escaper_length [0x4E2D; 97] sample_world sample_world).
  - repeat constructor; unfold code_unit; lia.
  - vm_compute. reflexivity.
Defined.

(** ** Which error a call throws *)

(** X16.  Which outcome a call has is decided in this order: it throws
    TypeError("missing config") exactly when AccessKeySecret is missing or
    empty (AccessKeyId and AppKey are not looked at); otherwise
    TypeError("missing param") exactly when one of the four required fields
    is missing or empty; otherwise URIError exactly when the assembled
    parameters hold an unpaired surrogate. *)
Theorem call_error_table {engine : Engine} (config : object) (opts : option object)
    (w : world) :
  (fst (verify config opts w) = Threw (TypeError (lit "missing config"))
   <-> ToBoolean (get config (lit "AccessKeySecret")) = false)
  /\ (fst (verify config opts w) = Threw (TypeError (lit "missing param"))
      <-> ToBoolean (get config (lit "AccessKeySecret")) = true
          /\ required_present (default_param [] opts) = false)
  /\ (fst (verify config opts w) = Threw URIError
      <-> ToBoolean (get config (lit "AccessKeySecret")) = true
          /\ required_present (default_param [] opts) = true
          /\ params_well_formed
               (assembled_params config (default_param [] opts) w) = false).
Proof.
  rewrite verify_table. cbv zeta.
  destruct (ToBoolean (get config (lit "AccessKeySecret")));
    destruct (required_present (default_param [] opts));
    destruct (params_well_formed _); cbn [negb fst];
    repeat split; intros; try discriminate; try tauto;
    repeat match goal with H : _ /\ _ |- _ => destruct H end; discriminate.
Qed.
